(** * fix-tw.py: the Tailwind prefix patcher, embedded and verified

    The script reads [src/index.ts], applies three [re.sub] passes to the
    text and writes the result back.  Python strings are sequences of
    Unicode code points, so a text is a list of code points (as [N]).  The
    three regular expressions of the script only use literal characters
    and one capturing group of the form [([^c]+)]; the regex type below has
    exactly these constructs, with the greedy, backtracking matching of
    [re]. *)

From Stdlib Require Import List NArith Arith Bool Lia String Ascii.
From Equations Require Import Equations.
Import ListNotations.

(** ** Text *)

Definition char := N.
Definition text := list char.

(** The code points of a literal written in ASCII. *)
Definition cps (s : string) : text :=
  List.map N_of_ascii (list_ascii_of_string s).

Definition ch_quote : char := 34%N.   (* the double quote *)
Definition ch_space : char := 32%N.
Definition ch_c : char := 99%N.       (* the letter c *)

Definition char_eqb (a b : char) : bool := N.eqb a b.

(** ** The regular expressions of the script *)

Module Re.

(** [Lit c] matches the character [c]; [GroupNotPlus c] is the capturing
    group [([^c]+)]: one or more characters other than [c], greedy. *)
Inductive atom : Type :=
| Lit (c : char)
| GroupNotPlus (c : char).

Definition regex := list atom.

(** A match found at the head of a text: the captured groups in order and
    the text after the match. *)
Record found := Found { groups : list text; rest : text }.

Definition add_group (g : text) (m : found) : found :=
  Found (g :: groups m) (rest m).

Definition grow_group (x : char) (m : found) : found :=
  match groups m with
  | g :: gs => Found ((x :: g) :: gs) (rest m)
  | [] => m
  end.

(** [([^c]+)] followed by the continuation [k]: take one character other
    than [c], then prefer taking more (greedy); when the longer attempt
    fails, fall back to stopping here (backtracking). *)
Fixpoint match_not_plus (c : char) (k : text -> option found) (s : text)
  : option found :=
  match s with
  | [] => None
  | x :: s' =>
      if char_eqb x c then None
      else match match_not_plus c k s' with
           | Some m => Some (grow_group x m)
           | None => option_map (add_group [x]) (k s')
           end
  end.

(** [re.match]: the regex against the head of the text. *)
Fixpoint match_at (r : regex) (s : text) : option found :=
  match r with
  | [] => Some (Found [] s)
  | Lit c :: r' =>
      match s with
      | x :: s' => if char_eqb x c then match_at r' s' else None
      | [] => None
      end
  | GroupNotPlus c :: r' => match_not_plus c (match_at r') s
  end.

Definition lits (s : text) : regex := List.map Lit s.

(** [re.sub(r, repl, s)]: scan left to right; at the leftmost match emit
    the replacement computed from its groups and go on behind the match;
    a character at which nothing matches is copied.  A match that
    consumed nothing (only the empty regex has one) is replaced and the
    scan moves one character on. *)
Equations sub (r : regex) (repl : list text -> text) (s : text) : text
  by wf (List.length s) lt :=
sub r repl [] :=
  match match_at r [] with Some m => repl (groups m) | None => [] end;
sub r repl (x :: s') with match_at r (x :: s') := {
  | Some m with lt_dec (List.length (rest m)) (List.length (x :: s')) := {
      | left _ => repl (groups m) ++ sub r repl (rest m)
      | right _ => repl (groups m) ++ x :: sub r repl s' }
  | None => x :: sub r repl s' }.

End Re.

(** ** The string methods the callback uses *)

Module Py.

(** [str.isspace] on one code point: the ASCII white space of
    [str.split()] (tab to carriage return, the four separators 28 to 31,
    space) and the Unicode white space characters. *)
Definition isspace (c : char) : bool :=
  ((9 <=? c) && (c <=? 13) || (28 <=? c) && (c <=? 32)
   || (c =? 133) || (c =? 160) || (c =? 5760)
   || (8192 <=? c) && (c <=? 8202)
   || (c =? 8232) || (c =? 8233) || (c =? 8239) || (c =? 8287)
   || (c =? 12288))%N.

(** [s.startswith(p)] *)
Fixpoint startswith (p s : text) : bool :=
  match p, s with
  | [], _ => true
  | _ :: _, [] => false
  | a :: p', b :: s' => char_eqb a b && startswith p' s'
  end.

Definition emit (tok : text) (l : list text) : list text :=
  match tok with
  | [] => l
  | _ :: _ => tok :: l
  end.

(** The loop of [s.split()]: [tok] is the word read so far; white space
    closes it (an empty word is not emitted), any other character extends
    it. *)
Fixpoint split_from (tok : text) (s : text) : list text :=
  match s with
  | [] => emit tok []
  | c :: s' =>
      if isspace c then emit tok (split_from [] s')
      else split_from (tok ++ [c]) s'
  end.

(** [s.split()] *)
Definition split (s : text) : list text := split_from [] s.

(** [sep.join(xs)] *)
Fixpoint join (sep : text) (xs : list text) : text :=
  match xs with
  | [] => []
  | [x] => x
  | x :: xs' => x ++ sep ++ join sep xs'
  end.

End Py.

(** ** The script *)

Definition tw : text := cps "tw-".

Definition mangled_add : text := cps "classList.tw-add(".
Definition fixed_add : text := cps "classList.add(".
Definition mangled_remove : text := cps "classList.tw-remove(".
Definition fixed_remove : text := cps "classList.remove(".

(** The text [className = ] up to and including the opening quote. *)
Definition className_open : text := cps "className = " ++ [ch_quote].

(** The three patterns; the escapes of the first two only make the dot
    and the parenthesis literal. *)
Definition re_tw_add : Re.regex := Re.lits mangled_add.
Definition re_tw_remove : Re.regex := Re.lits mangled_remove.
Definition re_className : Re.regex :=
  Re.lits className_open ++ [Re.GroupNotPlus ch_quote; Re.Lit ch_quote].

(** [match.group(1)] *)
Definition group1 (gs : list text) : text := List.hd [] gs.

(** The generator expression of [prefix_classes]. *)
Definition prefix_class (c : text) : text :=
  if negb (Py.startswith tw c) then tw ++ c else c.

Definition prefix_classes (gs : list text) : text :=
  let classes := group1 gs in
  let prefixed := Py.join [ch_space] (List.map prefix_class (Py.split classes)) in
  className_open ++ prefixed ++ [ch_quote].

(** The three assignments to [content]. *)
Definition fix_add (content : text) : text :=
  Re.sub re_tw_add (fun _ => fixed_add) content.

Definition fix_remove (content : text) : text :=
  Re.sub re_tw_remove (fun _ => fixed_remove) content.

Definition fix_className (content : text) : text :=
  Re.sub re_className prefix_classes content.

(** *** Files and the console *)

Record file := File { can_read : bool; can_write : bool; data : text }.

Definition filesystem := string -> option file.

Record world := World { fs : filesystem; stdout : list text }.

Inductive error := FileNotFoundError | PermissionError.

Inductive outcome (A : Type) : Type :=
| Done (a : A) (w : world)
| Raised (e : error) (w : world).
Arguments Done {A} a w.
Arguments Raised {A} e w.

Definition io (A : Type) := world -> outcome A.

Definition ret {A} (a : A) : io A := fun w => Done a w.

Definition bind {A B} (m : io A) (k : A -> io B) : io B :=
  fun w => match m w with
           | Done a w' => k a w'
           | Raised e w' => Raised e w'
           end.

Notation "x <- m ;; k" := (bind m (fun x => k))
  (at level 61, m at next level, right associativity).
Notation "m ;; k" := (bind m (fun _ => k))
  (at level 61, right associativity).

Definition store (p : string) (f : file) (m : filesystem) : filesystem :=
  fun q => if String.eqb q p then Some f else m q.

(** [with open(p, 'r') as f: f.read()] *)
Definition read_text (p : string) : io text :=
  fun w => match fs w p with
           | None => Raised FileNotFoundError w
           | Some f => if can_read f then Done (data f) w
                       else Raised PermissionError w
           end.

(** [with open(p, 'w') as f: f.write(s)]: creates the file when there is
    none, replaces the whole content otherwise. *)
Definition write_text (p : string) (s : text) : io unit :=
  fun w => match fs w p with
           | None => Done tt (World (store p (File true true s) (fs w)) (stdout w))
           | Some f =>
               if can_write f
               then Done tt (World (store p (File (can_read f) true s) (fs w)) (stdout w))
               else Raised PermissionError w
           end.

Definition print (line : text) : io unit :=
  fun w => Done tt (World (fs w) (stdout w ++ [line])).

Definition target : string := "src/index.ts".

(** The check mark (U+2713) and the words after it. *)
Definition message : text := 10003%N :: cps " Fixed Tailwind prefixes".

Definition main : io unit :=
  content <- read_text target ;;
  let content := Re.sub re_tw_add (fun _ => fixed_add) content in
  let content := Re.sub re_tw_remove (fun _ => fixed_remove) content in
  let content := Re.sub re_className prefix_classes content in
  write_text target content ;;
  print message.

(** The text the script writes for the text it read. *)
Definition pipeline (content : text) : text :=
  fix_className (fix_remove (fix_add content)).

(** ** Vocabulary of the properties *)

(** Number of positions of [s] at which [w] starts. *)
Fixpoint count (w s : text) : nat :=
  match s with
  | [] => 0
  | _ :: s' => (if Py.startswith w s then 1 else 0) + count w s'
  end.

(** Number of positions of [s] at which the regex matches. *)
Fixpoint matches (r : Re.regex) (s : text) : nat :=
  match s with
  | [] => 0
  | _ :: s' => (match Re.match_at r s with Some _ => 1 | None => 0 end) + matches r s'
  end.

(** A token: not empty and free of white space. *)
Definition token (t : text) : Prop :=
  t <> [] /\ Forall (fun c => Py.isspace c = false) t.

(** The class string the callback writes. *)
Definition prefixed (classes : text) : text :=
  Py.join [ch_space] (List.map prefix_class (Py.split classes)).

(** [replaced old new s s']: [s'] is [s] with every occurrence of [old],
    taken from left to right, rewritten to [new]. *)
Inductive replaced (old new : text) : text -> text -> Prop :=
| replaced_nil : replaced old new [] []
| replaced_hit (s s' : text) :
    replaced old new s s' -> replaced old new (old ++ s) (new ++ s')
| replaced_copy (x : char) (s s' : text) :
    Py.startswith old (x :: s) = false ->
    replaced old new s s' -> replaced old new (x :: s) (x :: s').

(** [arrives r t z]: the scan of [re.sub] over [t] with the regex [r]
    comes to the suffix [z] and tries the regex there; it does not when
    [z] begins inside a match found earlier. *)
Inductive arrives (r : Re.regex) (t : text) : text -> Prop :=
| arrives_start : arrives r t t
| arrives_copy (x : char) (z : text) :
    arrives r t (x :: z) -> Re.match_at r (x :: z) = None -> arrives r t z
| arrives_jump (z : text) (m : Re.found) :
    arrives r t z -> Re.match_at r z = Some m ->
    List.length (Re.rest m) < List.length z -> arrives r t (Re.rest m)
| arrives_empty (x : char) (z : text) (m : Re.found) :
    arrives r t (x :: z) -> Re.match_at r (x :: z) = Some m ->
    ~ List.length (Re.rest m) < List.length (x :: z) -> arrives r t z.

(** A class string between its quotes. *)
Definition quoted (s : text) : text := ch_quote :: s ++ [ch_quote].

(** Number of maximal runs of white space in a text. *)
Fixpoint space_runs (inside : bool) (s : text) : nat :=
  match s with
  | [] => 0
  | c :: s' =>
      if Py.isspace c
      then (if inside then 0 else 1) + space_runs true s'
      else space_runs false s'
  end.

(** The characters the passes neither insert nor delete: all but white
    space and the three characters of the prefix. *)
Definition kept (x : char) : bool :=
  negb (Py.isspace x) && negb (List.existsb (char_eqb x) tw).

(** A text without the characters the passes may insert or delete. *)
Definition skeleton (t : text) : text := List.filter kept t.

(** ** Characters and prefixes *)

Lemma char_eqb_eq (a b : char) : char_eqb a b = true <-> a = b.
Proof. apply N.eqb_eq. Qed.

Lemma char_eqb_neq (a b : char) : char_eqb a b = false <-> a <> b.
Proof. apply N.eqb_neq. Qed.

Lemma char_eqb_refl (a : char) : char_eqb a a = true.
Proof. apply N.eqb_refl. Qed.

Lemma char_eqb_sym (a b : char) : char_eqb a b = char_eqb b a.
Proof. apply N.eqb_sym. Qed.

Lemma startswith_app (w r : text) : Py.startswith w (w ++ r) = true.
Proof.
  induction w as [|a w IH]; simpl; [reflexivity|].
  now rewrite char_eqb_refl.
Qed.

Lemma startswith_true (w s : text) :
  Py.startswith w s = true <-> exists r, s = w ++ r.
Proof.
  split.
  - revert s. induction w as [|a w IH]; intros s H.
    + now exists s.
    + destruct s as [|b s]; simpl in H; [discriminate|].
      apply andb_true_iff in H. destruct H as [Hab Hw].
      apply char_eqb_eq in Hab. subst b.
      destruct (IH _ Hw) as [r ->]. now exists r.
  - intros [r ->]. apply startswith_app.
Qed.

Lemma startswith_skipn (w s : text) :
  Py.startswith w s = true -> s = w ++ skipn (List.length w) s.
Proof.
  intros H. apply startswith_true in H. destruct H as [r ->].
  now rewrite skipn_app, skipn_all, Nat.sub_diag.
Qed.

(** A word that does not contain [x] starts at [u ++ x :: v] only when it
    starts at [u]. *)
Lemma startswith_sep (w u v : text) (x : char) :
  ~ In x w -> Py.startswith w (u ++ x :: v) = Py.startswith w u.
Proof.
  revert u. induction w as [|a w IH]; intros u Hx; [reflexivity|].
  destruct u as [|b u]; simpl.
  - destruct (char_eqb a x) eqn:E; [|reflexivity].
    apply char_eqb_eq in E. subst. exfalso. apply Hx. now left.
  - rewrite IH; [reflexivity|]. intros Hin. apply Hx. now right.
Qed.

(** ** What the regexes match *)

Lemma match_lits_app (w : text) (r : Re.regex) (s : text) :
  Re.match_at (Re.lits w ++ r) s =
  if Py.startswith w s then Re.match_at r (skipn (List.length w) s) else None.
Proof.
  revert s. induction w as [|a w IH]; intros s; [reflexivity|].
  destruct s as [|b s]; simpl; [reflexivity|].
  rewrite (char_eqb_sym a b).
  destruct (char_eqb b a); simpl; [apply IH|reflexivity].
Qed.

Lemma match_lits (w s : text) :
  Re.match_at (Re.lits w) s =
  if Py.startswith w s then Some (Re.Found [] (skipn (List.length w) s)) else None.
Proof.
  rewrite <- (app_nil_r (Re.lits w)). apply match_lits_app.
Qed.

Lemma match_lits_some (w s : text) (m : Re.found) :
  Re.match_at (Re.lits w) s = Some m <->
  exists r, s = w ++ r /\ m = Re.Found [] r.
Proof.
  rewrite match_lits. split.
  - destruct (Py.startswith w s) eqn:E; [|discriminate].
    intros [= <-]. eexists. split; [now apply startswith_skipn|reflexivity].
  - intros (r & -> & ->). rewrite startswith_app.
    now rewrite skipn_app, skipn_all, Nat.sub_diag.
Qed.

(** The group [([^c]+)] followed by the literal [c]: the maximal run of
    other characters, which must not be empty, and then [c]. *)
Lemma match_not_plus_lit (c : char) (s : text) (m : Re.found) :
  Re.match_not_plus c (Re.match_at [Re.Lit c]) s = Some m <->
  exists g r, g <> [] /\ ~ In c g /\ s = g ++ c :: r /\ m = Re.Found [g] r.
Proof.
  set (k := Re.match_at [Re.Lit c]).
  assert (Hk : forall r, k (c :: r) = Some (Re.Found [] r)).
  { intros r. unfold k. simpl. now rewrite char_eqb_refl. }
  split.
  - revert m. induction s as [|x s IH]; intros m H;
      cbn [Re.match_not_plus] in H; [discriminate|].
    destruct (char_eqb x c) eqn:Ex; [discriminate|].
    apply char_eqb_neq in Ex.
    destruct (Re.match_not_plus c k s) as [m'|] eqn:Em.
    + destruct (IH _ eq_refl) as (g & r & Hg & Hc & -> & ->).
      injection H as <-. exists (x :: g), r. repeat split; try easy.
      intros [He|Hi]; [now subst|easy].
    + destruct s as [|y s]; unfold k in H; simpl in H; [discriminate|].
      destruct (char_eqb y c) eqn:Ey; simpl in H; [|discriminate].
      apply char_eqb_eq in Ey. subst y. injection H as <-.
      exists [x], s. repeat split; try easy.
      intros [He|[]]. now subst.
  - intros (g & r & Hg & Hc & -> & ->).
    induction g as [|x g IH]; [easy|].
    cbn [app Re.match_not_plus].
    destruct (char_eqb x c) eqn:Ex.
    { apply char_eqb_eq in Ex. exfalso. apply Hc. now left. }
    destruct g as [|y g].
    + cbn [app Re.match_not_plus]. now rewrite char_eqb_refl, Hk.
    + rewrite IH; [reflexivity|easy|].
      intros Hi. apply Hc. now right.
Qed.

Lemma match_className (s : text) (m : Re.found) :
  Re.match_at re_className s = Some m <->
  exists g r, g <> [] /\ ~ In ch_quote g /\
              s = className_open ++ g ++ ch_quote :: r /\ m = Re.Found [g] r.
Proof.
  unfold re_className. rewrite match_lits_app.
  change (Re.match_at [Re.GroupNotPlus ch_quote; Re.Lit ch_quote])
    with (Re.match_not_plus ch_quote (Re.match_at [Re.Lit ch_quote])).
  split.
  - destruct (Py.startswith className_open s) eqn:E; [|discriminate].
    intros H. apply match_not_plus_lit in H.
    destruct H as (g & r & Hg & Hq & Hs & ->).
    exists g, r. repeat split; try easy.
    rewrite (startswith_skipn _ _ E) at 1. now rewrite Hs.
  - intros (g & r & Hg & Hq & -> & ->).
    rewrite startswith_app, skipn_app, skipn_all, Nat.sub_diag. simpl skipn.
    apply match_not_plus_lit. now exists g, r.
Qed.

(** ** The scan of [re.sub] *)

Lemma text_length_ind (P : text -> Prop) :
  (forall t, (forall u, List.length u < List.length t -> P u) -> P t) ->
  forall t, P t.
Proof.
  intros H t. remember (List.length t) as n eqn:En. revert t En.
  induction n as [n IH] using lt_wf_ind. intros t ->.
  apply H. intros u Hu. now apply (IH (List.length u)).
Qed.

Section Scan.

Variables (r : Re.regex) (repl : list text -> text).

Lemma sub_nil : Re.match_at r [] = None -> Re.sub r repl [] = [].
Proof. intros H. rewrite Re.sub_equation_1. now rewrite H. Qed.

Lemma sub_none (x : char) (s : text) :
  Re.match_at r (x :: s) = None -> Re.sub r repl (x :: s) = x :: Re.sub r repl s.
Proof. intros H. rewrite Re.sub_equation_2, H. now simp sub. Qed.

Lemma sub_some (x : char) (s : text) (m : Re.found) :
  Re.match_at r (x :: s) = Some m ->
  List.length (Re.rest m) < List.length (x :: s) ->
  Re.sub r repl (x :: s) = repl (Re.groups m) ++ Re.sub r repl (Re.rest m).
Proof.
  intros H Hlt. rewrite Re.sub_equation_2, H. simp sub.
  destruct (lt_dec _ _) as [Hl|Hl]; [now simp sub|contradiction].
Qed.

(** A text in which the regex matches nowhere is returned as it is. *)
Lemma sub_no_match (s : text) :
  Re.match_at r [] = None -> matches r s = 0 -> Re.sub r repl s = s.
Proof.
  intros Hnil. induction s as [|x s IH]; intros H.
  - now apply sub_nil.
  - simpl in H. destruct (Re.match_at r (x :: s)) eqn:E; [discriminate|].
    rewrite (sub_none _ _ E). f_equal. apply IH. exact H.
Qed.

(** The output of the scan up to a place it arrives at is followed by
    the output of the scan from that place. *)
Lemma sub_arrives (t z : text) :
  arrives r t z -> exists o, Re.sub r repl t = o ++ Re.sub r repl z.
Proof.
  induction 1 as [|x z _ [o IH] E|z m _ [o IH] E Hl|x z m _ [o IH] E Hl].
  - now exists [].
  - exists (o ++ [x]). rewrite IH, (sub_none _ _ E). now rewrite <- app_assoc.
  - destruct z as [|x z]; [simpl in Hl; lia|].
    exists (o ++ repl (Re.groups m)).
    rewrite IH, (sub_some _ _ _ E Hl). now rewrite <- app_assoc.
  - exists (o ++ repl (Re.groups m) ++ [x]).
    rewrite IH, Re.sub_equation_2, E. simp sub.
    destruct (lt_dec _ _) as [Hl'|Hl']; [contradiction|]. simp sub.
    now rewrite <- !app_assoc.
Qed.

(** *** Passes anchored at the letter c

    Each pattern of the script starts with the letter c and has no other
    c, and so does each replacement: the scan copies every stretch
    without a c, and such a stretch of the output was one of the input. *)

Hypothesis anchored :
  forall s m, Re.match_at r s = Some m -> exists s', s = ch_c :: s'.
Hypothesis progress :
  forall s m, Re.match_at r s = Some m -> List.length (Re.rest m) < List.length s.
Hypothesis repl_anchored :
  forall s m, Re.match_at r s = Some m -> exists o, repl (Re.groups m) = ch_c :: o.

Lemma anchored_nil : Re.match_at r [] = None.
Proof.
  destruct (Re.match_at r []) as [m|] eqn:E; [|reflexivity].
  destruct (anchored _ _ E) as [s' Hs]. discriminate.
Qed.

Lemma anchored_other (x : char) (s : text) :
  x <> ch_c -> Re.match_at r (x :: s) = None.
Proof.
  intros Hx. destruct (Re.match_at r (x :: s)) as [m|] eqn:E; [|reflexivity].
  destruct (anchored _ _ E) as [s' Hs]. congruence.
Qed.

Lemma sub_copy (u v : text) :
  ~ In ch_c u -> Re.sub r repl (u ++ v) = u ++ Re.sub r repl v.
Proof.
  induction u as [|x u IH]; intros Hc; [reflexivity|].
  simpl. rewrite sub_none.
  - f_equal. apply IH. intros Hi. apply Hc. now right.
  - apply anchored_other. intros ->. apply Hc. now left.
Qed.

Lemma sub_head_inv (x : char) (v o : text) :
  x <> ch_c -> Re.sub r repl v = x :: o ->
  exists v', v = x :: v' /\ o = Re.sub r repl v'.
Proof.
  intros Hx H. destruct v as [|y v].
  - rewrite (sub_nil anchored_nil) in H. discriminate.
  - destruct (Re.match_at r (y :: v)) as [m|] eqn:E.
    + rewrite (sub_some _ _ _ E (progress _ _ E)) in H.
      destruct (repl_anchored _ _ E) as [o' Ho]. rewrite Ho in H.
      simpl in H. congruence.
    + rewrite (sub_none _ _ E) in H. injection H as -> <-. now exists v.
Qed.

Lemma sub_prefix_inv (u v o : text) :
  ~ In ch_c u -> Re.sub r repl v = u ++ o ->
  exists v', v = u ++ v' /\ o = Re.sub r repl v'.
Proof.
  revert v. induction u as [|x u IH]; intros v Hc H.
  - now exists v.
  - simpl in H. apply sub_head_inv in H.
    2:{ intros ->. apply Hc. now left. }
    destruct H as (v1 & -> & H). symmetry in H. apply IH in H.
    2:{ intros Hi. apply Hc. now right. }
    destruct H as (v' & -> & ->). now exists v'.
Qed.

Lemma startswith_sub (u v : text) :
  ~ In ch_c u ->
  Py.startswith u (Re.sub r repl v) = Py.startswith u v.
Proof.
  intros Hc.
  destruct (Py.startswith u (Re.sub r repl v)) eqn:E1.
  - apply startswith_true in E1. destruct E1 as [o Ho].
    destruct (sub_prefix_inv _ _ _ Hc Ho) as (v' & -> & _).
    symmetry. apply startswith_app.
  - destruct (Py.startswith u v) eqn:E2; [|reflexivity].
    apply startswith_true in E2. destruct E2 as [v' ->].
    rewrite (sub_copy _ _ Hc), startswith_app in E1. discriminate.
Qed.

(** Where the scan copies a character, a word whose tail has no c starts
    in the output exactly when it starts in the input. *)
Lemma count_sub_none (w0 : char) (w : text) (x : char) (s : text) :
  ~ In ch_c w -> Re.match_at r (x :: s) = None ->
  count (w0 :: w) (Re.sub r repl (x :: s)) =
  (if Py.startswith (w0 :: w) (x :: s) then 1 else 0)
  + count (w0 :: w) (Re.sub r repl s).
Proof.
  intros Hc E. rewrite (sub_none _ _ E).
  cbn [count Py.startswith]. now rewrite (startswith_sub _ _ Hc).
Qed.

End Scan.

(** ** Counting the places where a word starts *)

Lemma count_sep (w u v : text) (x : char) :
  w <> [] -> ~ In x w -> count w (u ++ x :: v) = count w u + count w v.
Proof.
  intros Hw Hx. induction u as [|b u IH].
  - simpl. destruct w as [|a w]; [easy|]. simpl.
    destruct (char_eqb a x) eqn:E; [|reflexivity].
    apply char_eqb_eq in E. subst. exfalso. apply Hx. now left.
  - change ((b :: u) ++ x :: v) with (b :: (u ++ x :: v)).
    cbn [count]. rewrite IH.
    change (b :: (u ++ x :: v)) with ((b :: u) ++ x :: v).
    rewrite (startswith_sep _ _ _ _ Hx). lia.
Qed.

Lemma count_copy (w u v : text) :
  ~ In ch_c u -> count (ch_c :: w) (u ++ v) = count (ch_c :: w) v.
Proof.
  induction u as [|b u IH]; intros Hc; [reflexivity|].
  change ((b :: u) ++ v) with (b :: (u ++ v)). cbn [count Py.startswith].
  destruct (char_eqb ch_c b) eqn:E.
  - apply char_eqb_eq in E. subst. exfalso. apply Hc. now left.
  - simpl. apply IH. intros Hi. apply Hc. now right.
Qed.

Lemma count_block (w z v : text) :
  ~ In ch_c z ->
  count (ch_c :: w) (ch_c :: z ++ v) =
  (if Py.startswith (ch_c :: w) (ch_c :: z ++ v) then 1 else 0)
  + count (ch_c :: w) v.
Proof.
  intros Hc. cbn [count]. now rewrite (count_copy _ _ _ Hc).
Qed.

(** ** The two literal passes *)

Section LiteralPass.

(** The pass replaces [ch_c :: wt] by [ch_c :: vt]. *)
Variables (wt vt : text).
Hypothesis wt_free : ~ In ch_c wt.
Hypothesis vt_free : ~ In ch_c vt.

Local Abbreviation w := (ch_c :: wt).
Local Abbreviation v := (ch_c :: vt).
Local Abbreviation pass := (Re.sub (Re.lits w) (fun _ => v)).

Lemma lit_anchored (s : text) (m : Re.found) :
  Re.match_at (Re.lits w) s = Some m -> exists s', s = ch_c :: s'.
Proof.
  intros H. apply match_lits_some in H. destruct H as (r & -> & _).
  now exists (wt ++ r).
Qed.

Lemma lit_progress (s : text) (m : Re.found) :
  Re.match_at (Re.lits w) s = Some m ->
  List.length (Re.rest m) < List.length s.
Proof.
  intros H. apply match_lits_some in H. destruct H as (r & -> & ->).
  simpl. rewrite length_app. lia.
Qed.

Lemma lit_repl_anchored (s : text) (m : Re.found) :
  Re.match_at (Re.lits w) s = Some m ->
  exists o, (fun _ : list text => v) (Re.groups m) = ch_c :: o.
Proof. intros _. now exists vt. Qed.

Lemma lit_pass_nil : pass [] = [].
Proof. apply sub_nil. reflexivity. Qed.

Lemma lit_pass_match (s : text) : pass (ch_c :: wt ++ s) = ch_c :: vt ++ pass s.
Proof.
  assert (E : Re.match_at (Re.lits w) (ch_c :: wt ++ s) = Some (Re.Found [] s)).
  { apply match_lits_some. now exists s. }
  rewrite (sub_some _ _ _ _ _ E); [reflexivity|].
  simpl. rewrite length_app. lia.
Qed.

Lemma lit_pass_skip (x : char) (s : text) :
  Py.startswith w (x :: s) = false -> pass (x :: s) = x :: pass s.
Proof.
  intros H. apply sub_none. now rewrite match_lits, H.
Qed.

Lemma lit_pass_copy (u s : text) :
  ~ In ch_c u -> pass (u ++ s) = u ++ pass s.
Proof.
  apply sub_copy. exact lit_anchored.
Qed.

(** A text that does not contain the mangled word is left as it is. *)
Lemma lit_pass_absent (s : text) : count w s = 0 -> pass s = s.
Proof.
  induction s as [|x s IH]; intros H; [apply lit_pass_nil|].
  cbn [count] in H.
  destruct (Py.startswith w (x :: s)) eqn:E; [discriminate|].
  rewrite (lit_pass_skip _ _ E). f_equal. now apply IH.
Qed.

(** How the pass changes the count of a word [ch_c :: ut]: [bw] tells
    whether the word starts at the replaced word, [bv] whether it starts
    at its replacement. *)
Lemma lit_pass_count (ut : text) (bw bv : nat) :
  ~ In ch_c ut ->
  (forall z, (if Py.startswith (ch_c :: ut) (ch_c :: wt ++ z) then 1 else 0) = bw) ->
  (forall z, (if Py.startswith (ch_c :: ut) (ch_c :: vt ++ z) then 1 else 0) = bv) ->
  forall t,
    count (ch_c :: ut) (pass t) + bw * count w t =
    count (ch_c :: ut) t + bv * count w t.
Proof.
  intros Hu Hbw Hbv t. induction t as [t IH] using text_length_ind.
  destruct t as [|x s]; [rewrite lit_pass_nil; simpl; lia|].
  destruct (Py.startswith w (x :: s)) eqn:E.
  - apply startswith_true in E. destruct E as [s' E]. cbn [app] in E.
    assert (Hl : List.length s' < List.length (x :: s)).
    { rewrite E. simpl. rewrite length_app. lia. }
    specialize (IH s' Hl). rewrite E, lit_pass_match.
    rewrite !count_block by assumption.
    rewrite Hbw, Hbv.
    change (ch_c :: wt ++ s') with (w ++ s').
    rewrite startswith_app. nia.
  - rewrite (count_sub_none _ _ lit_anchored lit_progress lit_repl_anchored
               _ _ _ _ Hu).
    2:{ now rewrite match_lits, E. }
    assert (Hl : List.length s < List.length (x :: s)) by (simpl; lia).
    specialize (IH s Hl).
    cbn [count]. rewrite E. nia.
Qed.

End LiteralPass.

(** *** The words of the script *)

Ltac no_such_char :=
  let H := fresh in
  intros H; cbv in H;
  repeat (destruct H as [H|H]; [discriminate H|]); exact H.

Lemma mangled_add_free : ~ In ch_c (tl mangled_add).
Proof. no_such_char. Qed.

Lemma fixed_add_free : ~ In ch_c (tl fixed_add).
Proof. no_such_char. Qed.

Lemma mangled_remove_free : ~ In ch_c (tl mangled_remove).
Proof. no_such_char. Qed.

Lemma fixed_remove_free : ~ In ch_c (tl fixed_remove).
Proof. no_such_char. Qed.

Lemma fix_add_absent (t : text) : count mangled_add t = 0 -> fix_add t = t.
Proof. exact (lit_pass_absent (tl mangled_add) (tl fixed_add) t). Qed.

Lemma fix_remove_absent (t : text) : count mangled_remove t = 0 -> fix_remove t = t.
Proof. exact (lit_pass_absent (tl mangled_remove) (tl fixed_remove) t). Qed.

(** The first pass removes every mangled add, turns each into a fixed
    add, and leaves the counts of the remove words alone. *)
Lemma fix_add_counts (t : text) :
  count mangled_add (fix_add t) = 0 /\
  count fixed_add (fix_add t) = count fixed_add t + count mangled_add t /\
  count mangled_remove (fix_add t) = count mangled_remove t /\
  count fixed_remove (fix_add t) = count fixed_remove t.
Proof.
  pose proof (lit_pass_count (tl mangled_add) (tl fixed_add)
                mangled_add_free fixed_add_free) as L.
  pose proof (L (tl mangled_add) 1 0 mangled_add_free
                (fun z => eq_refl) (fun z => eq_refl) t) as H1.
  pose proof (L (tl fixed_add) 0 1 fixed_add_free
                (fun z => eq_refl) (fun z => eq_refl) t) as H2.
  pose proof (L (tl mangled_remove) 0 0 mangled_remove_free
                (fun z => eq_refl) (fun z => eq_refl) t) as H3.
  pose proof (L (tl fixed_remove) 0 0 fixed_remove_free
                (fun z => eq_refl) (fun z => eq_refl) t) as H4.
  change (ch_c :: tl mangled_add) with mangled_add in *.
  change (ch_c :: tl fixed_add) with fixed_add in *.
  change (ch_c :: tl mangled_remove) with mangled_remove in *.
  change (ch_c :: tl fixed_remove) with fixed_remove in *.
  change (Re.sub (Re.lits mangled_add) (fun _ => fixed_add) t)
    with (fix_add t) in *.
  lia.
Qed.

(** The second pass does the same for remove. *)
Lemma fix_remove_counts (t : text) :
  count mangled_remove (fix_remove t) = 0 /\
  count fixed_remove (fix_remove t) = count fixed_remove t + count mangled_remove t /\
  count mangled_add (fix_remove t) = count mangled_add t /\
  count fixed_add (fix_remove t) = count fixed_add t.
Proof.
  pose proof (lit_pass_count (tl mangled_remove) (tl fixed_remove)
                mangled_remove_free fixed_remove_free) as L.
  pose proof (L (tl mangled_remove) 1 0 mangled_remove_free
                (fun z => eq_refl) (fun z => eq_refl) t) as H1.
  pose proof (L (tl fixed_remove) 0 1 fixed_remove_free
                (fun z => eq_refl) (fun z => eq_refl) t) as H2.
  pose proof (L (tl mangled_add) 0 0 mangled_add_free
                (fun z => eq_refl) (fun z => eq_refl) t) as H3.
  pose proof (L (tl fixed_add) 0 0 fixed_add_free
                (fun z => eq_refl) (fun z => eq_refl) t) as H4.
  change (ch_c :: tl mangled_add) with mangled_add in *.
  change (ch_c :: tl fixed_add) with fixed_add in *.
  change (ch_c :: tl mangled_remove) with mangled_remove in *.
  change (ch_c :: tl fixed_remove) with fixed_remove in *.
  change (Re.sub (Re.lits mangled_remove) (fun _ => fixed_remove) t)
    with (fix_remove t) in *.
  lia.
Qed.

(** ** Splitting into class tokens and joining them *)

Lemma emit_cons (tok : text) (l : list text) :
  tok <> [] -> Py.emit tok l = tok :: l.
Proof. destruct tok; easy. Qed.

Lemma split_from_tokens (tok s : text) :
  Forall (fun c => Py.isspace c = false) tok ->
  Forall token (Py.split_from tok s).
Proof.
  revert tok. induction s as [|c s IH]; intros tok Ht; simpl.
  - destruct tok; simpl; [constructor|].
    constructor; [split; [easy|exact Ht]|constructor].
  - destruct (Py.isspace c) eqn:E.
    + destruct tok; simpl; [now apply IH|].
      constructor; [split; [easy|exact Ht]|now apply IH].
    + apply IH. apply Forall_app. split; [exact Ht|]. now constructor.
Qed.

Lemma split_tokens (s : text) : Forall token (Py.split s).
Proof. apply split_from_tokens. constructor. Qed.

Lemma split_from_word (tok u s : text) :
  Forall (fun c => Py.isspace c = false) u ->
  Py.split_from tok (u ++ s) = Py.split_from (tok ++ u) s.
Proof.
  revert tok. induction u as [|c u IH]; intros tok Hu.
  - now rewrite app_nil_r.
  - inversion Hu as [|? ? Hc Hu']; subst. simpl. rewrite Hc.
    rewrite IH by assumption. now rewrite <- app_assoc.
Qed.

(** Splitting a text made of tokens joined by single spaces gives the
    tokens back. *)
Lemma split_join (toks : list text) :
  Forall token toks -> Py.split (Py.join [ch_space] toks) = toks.
Proof.
  unfold Py.split. induction toks as [|x toks IH]; intros H; [reflexivity|].
  inversion H as [|? ? [Hx Hs] Ht]; subst.
  destruct toks as [|y toks].
  - simpl. rewrite <- (app_nil_r x) at 1.
    rewrite split_from_word by assumption. simpl. now apply emit_cons.
  - change (Py.join [ch_space] (x :: y :: toks))
      with (x ++ ch_space :: Py.join [ch_space] (y :: toks)).
    rewrite split_from_word by assumption.
    cbn [app Py.split_from].
    change (Py.isspace ch_space) with true. cbv iota.
    rewrite IH by assumption. now apply emit_cons.
Qed.

Lemma in_split_from (tok s t : text) (x : char) :
  In t (Py.split_from tok s) -> In x t -> In x tok \/ In x s.
Proof.
  revert tok. induction s as [|c s IH]; intros tok Ht Hx; simpl in Ht.
  - destruct tok; simpl in Ht; [easy|].
    destruct Ht as [<-|[]]. now left.
  - destruct (Py.isspace c).
    + destruct tok as [|a tok]; simpl in Ht.
      * destruct (IH _ Ht Hx) as [[]|Hs]. right. now right.
      * destruct Ht as [<-|Ht]; [now left|].
        destruct (IH _ Ht Hx) as [[]|Hs]. right. now right.
    + destruct (IH _ Ht Hx) as [Hi|Hs]; [|right; now right].
      apply in_app_or in Hi. destruct Hi as [Hi|[<-|[]]]; [now left|].
      right. now left.
Qed.

Lemma in_join (sep : text) (toks : list text) (x : char) :
  In x (Py.join sep toks) -> In x sep \/ exists t, In t toks /\ In x t.
Proof.
  induction toks as [|a toks IH]; intros H; [easy|].
  destruct toks as [|b toks].
  - right. exists a. split; [now left|exact H].
  - change (Py.join sep (a :: b :: toks))
      with (a ++ sep ++ Py.join sep (b :: toks)) in H.
    apply in_app_or in H. destruct H as [H|H].
    { right. exists a. split; [now left|exact H]. }
    apply in_app_or in H. destruct H as [H|H]; [now left|].
    destruct (IH H) as [Hs|(t & Ht & Hx)]; [now left|].
    right. exists t. split; [now right|exact Hx].
Qed.

(** The occurrences of a word without white space lie inside tokens. *)
Lemma count_split_from (w tok s : text) :
  w <> [] -> Forall (fun c => Py.isspace c = false) w ->
  list_sum (List.map (count w) (Py.split_from tok s)) = count w (tok ++ s).
Proof.
  intros Hw Hs. revert tok. induction s as [|c s IH]; intros tok; simpl.
  - rewrite app_nil_r. destruct tok; simpl; [reflexivity|lia].
  - destruct (Py.isspace c) eqn:E.
    + assert (Hc : ~ In c w).
      { intros Hi. rewrite Forall_forall in Hs. specialize (Hs _ Hi). congruence. }
      rewrite (count_sep _ _ _ _ Hw Hc).
      destruct tok as [|a tok]; simpl; rewrite IH; reflexivity.
    + rewrite IH, <- app_assoc. reflexivity.
Qed.

Lemma count_join (w : text) (toks : list text) :
  w <> [] -> ~ In ch_space w ->
  count w (Py.join [ch_space] toks) = list_sum (List.map (count w) toks).
Proof.
  intros Hw Hs. induction toks as [|a toks IH]; [reflexivity|].
  destruct toks as [|b toks].
  - simpl. lia.
  - change (Py.join [ch_space] (a :: b :: toks))
      with (a ++ ch_space :: Py.join [ch_space] (b :: toks)).
    rewrite (count_sep _ _ _ _ Hw Hs), IH. reflexivity.
Qed.

(** ** The callback *)

Lemma tw_free : ~ In ch_c tw.
Proof. no_such_char. Qed.

Lemma prefix_class_cases (c : text) :
  (Py.startswith tw c = true /\ prefix_class c = c) \/
  (Py.startswith tw c = false /\ prefix_class c = tw ++ c).
Proof.
  unfold prefix_class. destruct (Py.startswith tw c); simpl; auto.
Qed.

Lemma prefix_class_idem (c : text) :
  prefix_class (prefix_class c) = prefix_class c.
Proof.
  destruct (prefix_class_cases c) as [[E ->]|[E ->]].
  - unfold prefix_class. now rewrite E.
  - unfold prefix_class at 1. now rewrite startswith_app.
Qed.

Lemma prefix_class_token (c : text) : token c -> token (prefix_class c).
Proof.
  intros [Hc Hs]. destruct (prefix_class_cases c) as [[_ ->]|[_ ->]].
  - now split.
  - split; [easy|]. apply Forall_app. split; [|exact Hs].
    repeat constructor.
Qed.

Lemma prefix_class_count (ut c : text) :
  count (ch_c :: ut) (prefix_class c) = count (ch_c :: ut) c.
Proof.
  destruct (prefix_class_cases c) as [[_ ->]|[_ ->]]; [reflexivity|].
  apply count_copy. exact tw_free.
Qed.

Lemma prefix_class_in (c : text) (x : char) :
  In x (prefix_class c) -> In x tw \/ In x c.
Proof.
  destruct (prefix_class_cases c) as [[_ ->]|[_ ->]]; [now right|].
  apply in_app_or.
Qed.

Lemma prefix_classes_eq (g : text) (gs : list text) :
  prefix_classes (g :: gs) = className_open ++ prefixed g ++ [ch_quote].
Proof. reflexivity. Qed.

Lemma prefixed_tokens (g : text) :
  Forall token (List.map prefix_class (Py.split g)).
Proof.
  apply Forall_map. eapply Forall_impl; [|apply split_tokens].
  intros a. apply prefix_class_token.
Qed.

Lemma prefixed_no_quote (g : text) :
  ~ In ch_quote g -> ~ In ch_quote (prefixed g).
Proof.
  intros Hg Hi. apply in_join in Hi.
  destruct Hi as [[E|[]]|(t & Ht & Hx)]; [discriminate E|].
  apply in_map_iff in Ht. destruct Ht as (t0 & <- & Ht0).
  apply prefix_class_in in Hx. destruct Hx as [Hx|Hx].
  - revert Hx. no_such_char.
  - destruct (in_split_from _ _ _ _ Ht0 Hx) as [[]|Hs]. now apply Hg.
Qed.

(** Running the callback on its own class string changes nothing. *)
Lemma prefixed_idem (g : text) : prefixed (prefixed g) = prefixed g.
Proof.
  unfold prefixed at 1. unfold prefixed at 1.
  rewrite split_join by apply prefixed_tokens.
  rewrite map_map. unfold prefixed. f_equal.
  apply map_ext. intros a. apply prefix_class_idem.
Qed.

Lemma prefixed_count (ut g : text) :
  Forall (fun c => Py.isspace c = false) (ch_c :: ut) ->
  count (ch_c :: ut) (prefixed g) = count (ch_c :: ut) g.
Proof.
  intros Hs. unfold prefixed.
  rewrite count_join; [|easy|].
  2:{ intros Hi. rewrite Forall_forall in Hs. now specialize (Hs _ Hi). }
  rewrite map_map.
  rewrite (map_ext _ (count (ch_c :: ut))) by (intros; apply prefix_class_count).
  unfold Py.split. now rewrite count_split_from.
Qed.

(** ** The className pass *)

Lemma className_open_free : ~ In ch_c (tl className_open).
Proof. no_such_char. Qed.

Lemma cn_anchored (s : text) (m : Re.found) :
  Re.match_at re_className s = Some m -> exists s', s = ch_c :: s'.
Proof.
  intros H. apply match_className in H.
  destruct H as (g & r & _ & _ & -> & _). eexists. reflexivity.
Qed.

Lemma cn_progress (s : text) (m : Re.found) :
  Re.match_at re_className s = Some m ->
  List.length (Re.rest m) < List.length s.
Proof.
  intros H. apply match_className in H.
  destruct H as (g & r & _ & _ & -> & ->).
  rewrite !length_app. simpl. lia.
Qed.

Lemma cn_repl_anchored (s : text) (m : Re.found) :
  Re.match_at re_className s = Some m ->
  exists o, prefix_classes (Re.groups m) = ch_c :: o.
Proof. intros _. eexists. reflexivity. Qed.

Lemma fix_className_nil : fix_className [] = [].
Proof. apply sub_nil. reflexivity. Qed.

Lemma fix_className_match (g r : text) :
  g <> [] -> ~ In ch_quote g ->
  fix_className (className_open ++ g ++ ch_quote :: r) =
  className_open ++ prefixed g ++ ch_quote :: fix_className r.
Proof.
  intros Hg Hq.
  assert (E : Re.match_at re_className (className_open ++ g ++ ch_quote :: r)
              = Some (Re.Found [g] r)).
  { apply match_className. now exists g, r. }
  unfold fix_className.
  change (className_open ++ g ++ ch_quote :: r)
    with (ch_c :: (tl className_open ++ g ++ ch_quote :: r)) in *.
  rewrite (sub_some _ _ _ _ _ E (cn_progress _ _ E)).
  cbn [Re.groups Re.rest]. rewrite prefix_classes_eq.
  now rewrite <- !app_assoc.
Qed.

Lemma fix_className_skip (x : char) (s : text) :
  Re.match_at re_className (x :: s) = None ->
  fix_className (x :: s) = x :: fix_className s.
Proof. apply sub_none. Qed.

Lemma fix_className_copy (u s : text) :
  ~ In ch_c u -> fix_className (u ++ s) = u ++ fix_className s.
Proof. apply sub_copy. exact cn_anchored. Qed.

(** The pattern does not match where the quotes enclose nothing, and the
    scan copies such a literal. *)
Lemma match_empty_literal (z : text) :
  Re.match_at re_className (className_open ++ ch_quote :: z) = None.
Proof.
  destruct (Re.match_at re_className (className_open ++ ch_quote :: z))
    as [m|] eqn:E; [|reflexivity].
  apply match_className in E. destruct E as (g & r & Hg & Hq & E & _).
  apply app_inv_head in E. destruct g as [|a g]; [easy|].
  injection E as <- _. exfalso. apply Hq. now left.
Qed.

Lemma fix_className_empty_literal (z : text) :
  fix_className (className_open ++ ch_quote :: z) =
  className_open ++ ch_quote :: fix_className z.
Proof.
  pose proof (match_empty_literal z) as E.
  change (className_open ++ ch_quote :: z)
    with (ch_c :: ((tl className_open ++ [ch_quote]) ++ z)) in *.
  rewrite (fix_className_skip _ _ E), fix_className_copy; [reflexivity|].
  no_such_char.
Qed.

(** The pass neither creates nor destroys an occurrence of a word that
    starts with its only c, has no white space and no quote, and differs
    from the start of the pattern. *)
Lemma fix_className_count (ut : text) :
  ~ In ch_c ut ->
  Forall (fun c => Py.isspace c = false) (ch_c :: ut) ->
  ~ In ch_quote (ch_c :: ut) ->
  (forall z, Py.startswith (ch_c :: ut) (className_open ++ z) = false) ->
  forall t, count (ch_c :: ut) (fix_className t) = count (ch_c :: ut) t.
Proof.
  intros Hc Hs Hq Hp t. induction t as [t IH] using text_length_ind.
  destruct t as [|x s]; [now rewrite fix_className_nil|].
  destruct (Re.match_at re_className (x :: s)) as [m|] eqn:E.
  - apply match_className in E. destruct E as (g & r & Hg & Hgq & E & _).
    rewrite E, (fix_className_match _ _ Hg Hgq).
    assert (Hl : List.length r < List.length (x :: s)).
    { rewrite E, !length_app. simpl. lia. }
    assert (Hblock : forall z,
               count (ch_c :: ut) (className_open ++ z) = count (ch_c :: ut) z).
    { intros z.
      change (className_open ++ z) with (ch_c :: tl className_open ++ z).
      rewrite (count_block _ _ _ className_open_free).
      change (ch_c :: tl className_open ++ z) with (className_open ++ z).
      now rewrite Hp. }
    rewrite !Hblock.
    rewrite !(count_sep (ch_c :: ut)) by easy.
    rewrite (IH _ Hl), (prefixed_count _ _ Hs). reflexivity.
  - unfold fix_className.
    rewrite (count_sub_none _ _ cn_anchored cn_progress cn_repl_anchored
               _ _ _ _ Hc E).
    fold (fix_className s). rewrite IH by (simpl; lia). reflexivity.
Qed.

Ltac no_space_word := repeat constructor.

Lemma fix_className_counts (t : text) :
  count mangled_add (fix_className t) = count mangled_add t /\
  count fixed_add (fix_className t) = count fixed_add t /\
  count mangled_remove (fix_className t) = count mangled_remove t /\
  count fixed_remove (fix_className t) = count fixed_remove t.
Proof.
  repeat split.
  - apply (fix_className_count (tl mangled_add) mangled_add_free);
      [no_space_word|no_such_char|reflexivity].
  - apply (fix_className_count (tl fixed_add) fixed_add_free);
      [no_space_word|no_such_char|reflexivity].
  - apply (fix_className_count (tl mangled_remove) mangled_remove_free);
      [no_space_word|no_such_char|reflexivity].
  - apply (fix_className_count (tl fixed_remove) fixed_remove_free);
      [no_space_word|no_such_char|reflexivity].
Qed.

(** *** The className pass run twice *)

(** When the output starts with a run of characters that ends at a quote,
    so does the input. *)
Lemma quote_run_inv (g v r : text) :
  g <> [] -> ~ In ch_quote g -> fix_className v = g ++ ch_quote :: r ->
  exists g0 r0, g0 <> [] /\ ~ In ch_quote g0 /\ v = g0 ++ ch_quote :: r0.
Proof.
  revert v. induction g as [|y g IH]; intros v Hg Hq H; [easy|].
  destruct v as [|x s]; [rewrite fix_className_nil in H; discriminate|].
  destruct (Re.match_at re_className (x :: s)) as [m|] eqn:E.
  - apply match_className in E. destruct E as (g1 & r1 & _ & _ & E & _).
    exists (cps "className = "), (g1 ++ ch_quote :: r1).
    split; [easy|]. split; [no_such_char|]. rewrite E. reflexivity.
  - rewrite (fix_className_skip _ _ E) in H. injection H as -> H.
    assert (Hy : y <> ch_quote) by (intros ->; apply Hq; now left).
    destruct g as [|y' g].
    + apply (sub_head_inv _ _ cn_anchored cn_progress cn_repl_anchored) in H;
        [|discriminate].
      destruct H as (s' & -> & _). exists [y], s'.
      split; [easy|]. split; [|reflexivity]. intros [->|[]]. easy.
    + apply IH in H; [|easy|intros Hi; apply Hq; now right].
      destruct H as (g0 & r0 & _ & Hq0 & ->). exists (y :: g0), r0.
      split; [easy|]. split; [|reflexivity].
      intros [Hi|Hi]; [now subst|easy].
Qed.

(** A place where the pattern did not match stays one after the pass has
    run over the text behind it. *)
Lemma no_match_kept (x : char) (u : text) :
  Re.match_at re_className (x :: u) = None ->
  Re.match_at re_className (x :: fix_className u) = None.
Proof.
  intros E.
  destruct (Re.match_at re_className (x :: fix_className u)) as [m|] eqn:E';
    [|reflexivity].
  apply match_className in E'. destruct E' as (g & r & Hg & Hq & E' & _).
  change (className_open ++ g ++ ch_quote :: r)
    with (ch_c :: tl className_open ++ g ++ ch_quote :: r) in E'.
  injection E' as -> E'.
  apply (sub_prefix_inv _ _ cn_anchored cn_progress cn_repl_anchored
           _ _ _ className_open_free) in E'.
  destruct E' as (u' & -> & E'). symmetry in E'.
  destruct (quote_run_inv _ _ _ Hg Hq E') as (g0 & r0 & Hg0 & Hq0 & ->).
  assert (E2 : Re.match_at re_className
                 (className_open ++ g0 ++ ch_quote :: r0)
               = Some (Re.Found [g0] r0)).
  { apply match_className. now exists g0, r0. }
  change (className_open ++ g0 ++ ch_quote :: r0)
    with (ch_c :: tl className_open ++ g0 ++ ch_quote :: r0) in E2.
  congruence.
Qed.

Lemma fix_className_idem (t : text) :
  fix_className (fix_className t) = fix_className t.
Proof.
  induction t as [t IH] using text_length_ind.
  destruct t as [|x s]; [now rewrite !fix_className_nil|].
  destruct (Re.match_at re_className (x :: s)) as [m|] eqn:E.
  - apply match_className in E. destruct E as (g & r & Hg & Hq & E & _).
    assert (Hl : List.length r < List.length (x :: s)).
    { rewrite E, !length_app. simpl. lia. }
    rewrite E, (fix_className_match _ _ Hg Hq).
    destruct (prefixed g) as [|a p] eqn:Ep.
    + cbn [app]. rewrite fix_className_empty_literal. now rewrite (IH _ Hl).
    + rewrite <- Ep. rewrite fix_className_match.
      * now rewrite prefixed_idem, (IH _ Hl).
      * now rewrite Ep.
      * now apply prefixed_no_quote.
  - rewrite (fix_className_skip _ _ E).
    rewrite (fix_className_skip _ _ (no_match_kept _ _ E)).
    rewrite IH by (simpl; lia). reflexivity.
Qed.

(** ** The pipeline *)

Lemma pipeline_counts (t : text) :
  count mangled_add (pipeline t) = 0 /\
  count fixed_add (pipeline t) = count fixed_add t + count mangled_add t /\
  count mangled_remove (pipeline t) = 0 /\
  count fixed_remove (pipeline t) = count fixed_remove t + count mangled_remove t.
Proof.
  unfold pipeline.
  pose proof (fix_className_counts (fix_remove (fix_add t))).
  pose proof (fix_remove_counts (fix_add t)).
  pose proof (fix_add_counts t). lia.
Qed.

(** ** White space between class tokens *)

Lemma emit_app (tok : text) (l1 l2 : list text) :
  Py.emit tok l1 ++ l2 = Py.emit tok (l1 ++ l2).
Proof. destruct tok; reflexivity. Qed.

Lemma split_from_space (tok u v : text) (x : char) :
  Py.isspace x = true ->
  Py.split_from tok (u ++ x :: v) = Py.split_from tok u ++ Py.split v.
Proof.
  intros Hx. revert tok. induction u as [|c u IH]; intros tok; simpl.
  - rewrite Hx. now rewrite emit_app.
  - destruct (Py.isspace c).
    + now rewrite IH, emit_app.
    + apply IH.
Qed.

Lemma split_spaces (ws v : text) :
  Forall (fun c => Py.isspace c = true) ws -> Py.split (ws ++ v) = Py.split v.
Proof.
  induction 1 as [|c ws Hc _ IH]; [reflexivity|].
  unfold Py.split in *. simpl. now rewrite Hc.
Qed.

Lemma split_app_spaces (u ws v : text) :
  ws <> [] -> Forall (fun c => Py.isspace c = true) ws ->
  Py.split (u ++ ws ++ v) = Py.split u ++ Py.split v.
Proof.
  intros Hne Hws. destruct ws as [|x ws]; [easy|].
  inversion Hws as [|? ? Hx Hws']; subst.
  unfold Py.split at 1. cbn [app].
  rewrite (split_from_space _ _ _ _ Hx). now rewrite split_spaces.
Qed.

Lemma join_app (sep : text) (a b : list text) :
  Py.join sep (a ++ b) =
  Py.join sep a
  ++ match a, b with _ :: _, _ :: _ => sep | _, _ => [] end
  ++ Py.join sep b.
Proof.
  induction a as [|x a IH]; [reflexivity|].
  destruct a as [|y a].
  - destruct b as [|z b]; [simpl; now rewrite app_nil_r|reflexivity].
  - change (Py.join sep ((x :: y :: a) ++ b))
      with (x ++ sep ++ Py.join sep ((y :: a) ++ b)).
    rewrite IH.
    change (Py.join sep (x :: y :: a)) with (x ++ sep ++ Py.join sep (y :: a)).
    destruct b; now rewrite <- !app_assoc.
Qed.

Lemma prefixed_app_spaces (u ws v : text) :
  ws <> [] -> Forall (fun c => Py.isspace c = true) ws ->
  prefixed (u ++ ws ++ v) =
  prefixed u
  ++ match Py.split u, Py.split v with _ :: _, _ :: _ => [ch_space] | _, _ => [] end
  ++ prefixed v.
Proof.
  intros Hne Hws. unfold prefixed.
  rewrite (split_app_spaces _ _ _ Hne Hws), map_app, join_app.
  destruct (Py.split u), (Py.split v); reflexivity.
Qed.

(** ** Text that the passes cannot reach into *)

Section LiteralSplit.

Variables (wt vt : text).
Hypothesis wt_free : ~ In ch_c wt.

Local Abbreviation w := (ch_c :: wt).
Local Abbreviation v := (ch_c :: vt).
Local Abbreviation pass := (Re.sub (Re.lits w) (fun _ => v)).

(** No occurrence of the word reaches across a letter c, so the pass
    works on the text before a c and on the text from it separately. *)
Lemma lit_pass_split (u s : text) :
  pass (u ++ ch_c :: s) = pass u ++ pass (ch_c :: s).
Proof.
  induction u as [u IH] using text_length_ind.
  destruct u as [|x u]; [now rewrite lit_pass_nil|].
  assert (E : Py.startswith w ((x :: u) ++ ch_c :: s) = Py.startswith w (x :: u)).
  { cbn [app Py.startswith]. now rewrite (startswith_sep _ _ _ _ wt_free). }
  destruct (Py.startswith w (x :: u)) eqn:E1.
  - apply startswith_true in E1. destruct E1 as [u' E1]. rewrite E1.
    cbn [app]. rewrite <- (app_assoc wt u' (ch_c :: s)).
    change (wt ++ u' ++ ch_c :: s) with (wt ++ (u' ++ ch_c :: s)).
    rewrite !lit_pass_match, IH.
    + cbn [app]. now rewrite <- app_assoc.
    + rewrite E1. simpl. rewrite length_app. lia.
  - cbn [app] in *. rewrite (lit_pass_skip _ _ _ _ E), (lit_pass_skip _ _ _ _ E1).
    rewrite IH by (simpl; lia). reflexivity.
Qed.

(** The pass brings in no character that its replacement does not have. *)
Lemma lit_pass_in (x : char) (t : text) :
  ~ In x v -> In x (pass t) -> In x t.
Proof.
  intros Hx. induction t as [t IH] using text_length_ind.
  destruct t as [|y s]; [now rewrite lit_pass_nil|].
  destruct (Py.startswith w (y :: s)) eqn:E.
  - apply startswith_true in E. destruct E as [s' E]. rewrite E.
    cbn [app]. rewrite lit_pass_match. intros [Hi|Hi]; [exfalso; apply Hx; now left|].
    apply in_app_or in Hi. destruct Hi as [Hi|Hi];
      [exfalso; apply Hx; now right|].
    right. apply in_or_app. right. apply IH; [|exact Hi].
    rewrite E. simpl. rewrite length_app. lia.
  - rewrite (lit_pass_skip _ _ _ _ E). intros [Hi|Hi]; [now left|].
    right. apply IH; [simpl; lia|exact Hi].
Qed.

End LiteralSplit.

Lemma fix_add_split (u s : text) :
  fix_add (u ++ ch_c :: s) = fix_add u ++ fix_add (ch_c :: s).
Proof. exact (lit_pass_split _ (tl fixed_add) mangled_add_free u s). Qed.

Lemma fix_remove_split (u s : text) :
  fix_remove (u ++ ch_c :: s) = fix_remove u ++ fix_remove (ch_c :: s).
Proof. exact (lit_pass_split _ (tl fixed_remove) mangled_remove_free u s). Qed.

Lemma fix_add_no_quote (t : text) :
  ~ In ch_quote t -> ~ In ch_quote (fix_add t).
Proof.
  intros H Hi. apply H.
  apply (lit_pass_in (tl mangled_add) (tl fixed_add)); [no_such_char|exact Hi].
Qed.

Lemma fix_remove_no_quote (t : text) :
  ~ In ch_quote t -> ~ In ch_quote (fix_remove t).
Proof.
  intros H Hi. apply H.
  apply (lit_pass_in (tl mangled_remove) (tl fixed_remove)); [no_such_char|exact Hi].
Qed.

(** Before the first quote of the text the className pattern cannot
    match, unless the match ends in that very quote. *)
Lemma match_before_c (x : char) (u s : text) :
  ~ In ch_quote (x :: u) ->
  Re.match_at re_className ((x :: u) ++ ch_c :: s) = None.
Proof.
  intros Hq.
  destruct (Re.match_at re_className ((x :: u) ++ ch_c :: s)) as [m|] eqn:E;
    [|reflexivity].
  apply match_className in E. destruct E as (g & r & _ & _ & E & _).
  assert (S : Py.startswith className_open ((x :: u) ++ ch_c :: s) = true).
  { rewrite E. apply startswith_app. }
  change className_open with (ch_c :: tl className_open) in S.
  cbn [app Py.startswith] in S. apply andb_true_iff in S. destruct S as [_ S].
  rewrite (startswith_sep _ _ _ _ className_open_free) in S.
  apply startswith_true in S. destruct S as [u' ->].
  exfalso. apply Hq. right. apply in_or_app. left.
  cbv. do 11 right. now left.
Qed.

Lemma fix_className_before_c (u s : text) :
  ~ In ch_quote u ->
  fix_className (u ++ ch_c :: s) = u ++ fix_className (ch_c :: s).
Proof.
  induction u as [|x u IH]; intros Hq; [reflexivity|].
  pose proof (match_before_c x u s Hq) as E. cbn [app] in *.
  rewrite (fix_className_skip _ _ E), IH; [reflexivity|].
  intros Hi. apply Hq. now right.
Qed.

Lemma fix_className_no_quote (u : text) :
  ~ In ch_quote u -> fix_className u = u.
Proof.
  intros Hq. apply sub_no_match; [reflexivity|].
  induction u as [|x u IH]; [reflexivity|]. cbn [matches].
  destruct (Re.match_at re_className (x :: u)) as [m|] eqn:E.
  - apply match_className in E. destruct E as (g & r & _ & _ & E & _).
    exfalso. apply Hq. rewrite E. apply in_or_app. left.
    cbv. do 12 right. now left.
  - apply IH. intros Hi. apply Hq. now right.
Qed.

(** A stretch [ch_c :: l] without a second c and without a match of any
    pattern at its head is copied by the whole pipeline when no quote
    precedes it. *)
Lemma pipeline_island (pre l z : text) :
  ~ In ch_quote pre -> ~ In ch_c l ->
  (forall s, Py.startswith mangled_add (ch_c :: l ++ s) = false) ->
  (forall s, Py.startswith mangled_remove (ch_c :: l ++ s) = false) ->
  (forall s, Re.match_at re_className (ch_c :: l ++ s) = None) ->
  pipeline (pre ++ (ch_c :: l) ++ z) = pipeline pre ++ (ch_c :: l) ++ pipeline z.
Proof.
  intros Hq Hl Ha Hr Hc. unfold pipeline. cbn [app].
  assert (Ea : forall s, fix_add (ch_c :: l ++ s) = ch_c :: l ++ fix_add s).
  { intros s. unfold fix_add.
    change mangled_add with (ch_c :: tl mangled_add) in *.
    change fixed_add with (ch_c :: tl fixed_add).
    rewrite (lit_pass_skip _ _ _ _ (Ha s)). f_equal.
    now apply lit_pass_copy. }
  assert (Er : forall s, fix_remove (ch_c :: l ++ s) = ch_c :: l ++ fix_remove s).
  { intros s. unfold fix_remove.
    change mangled_remove with (ch_c :: tl mangled_remove) in *.
    change fixed_remove with (ch_c :: tl fixed_remove).
    rewrite (lit_pass_skip _ _ _ _ (Hr s)). f_equal.
    now apply lit_pass_copy. }
  rewrite fix_add_split, Ea, fix_remove_split, Er.
  rewrite fix_className_before_c
    by now apply fix_remove_no_quote, fix_add_no_quote.
  rewrite (fix_className_skip _ _ (Hc _)), (fix_className_copy _ _ Hl).
  rewrite (fix_className_no_quote (fix_remove (fix_add pre)))
    by now apply fix_remove_no_quote, fix_add_no_quote.
  reflexivity.
Qed.

(** ** Replacing every occurrence of a word *)


Lemma replaced_unique (old new s a b : text) :
  old <> [] -> replaced old new s a -> replaced old new s b -> a = b.
Proof.
  intros Hold Ha. revert b.
  induction Ha as [|s s' Ha IH|x s s' Hx Ha IH]; intros b Hb.
  - inversion Hb as [|s1 s1' H1 E1|x1 s1 s1' Hx1 H1 E1]; [reflexivity|].
    destruct old; [easy|discriminate].
  - remember (old ++ s) as t eqn:Et.
    destruct Hb as [|s1 s1' H1|x1 s1 s1' Hx1 H1].
    + destruct old; [easy|discriminate].
    + apply app_inv_head in Et. subst s1. f_equal. now apply IH.
    + rewrite Et, startswith_app in Hx1. discriminate.
  - remember (x :: s) as t eqn:Et.
    destruct Hb as [|s1 s1' H1|x1 s1 s1' Hx1 H1].
    + discriminate.
    + rewrite startswith_app in Hx. discriminate.
    + injection Et as -> ->. f_equal. now apply IH.
Qed.



(** ** Running the script *)

Lemma main_run (w : world) (f : file) :
  fs w target = Some f -> can_read f = true -> can_write f = true ->
  main w = Done tt (World (store target (File true true (pipeline (data f))) (fs w))
                          (stdout w ++ [message])).
Proof.
  intros Hf Hr Hw. unfold main, bind, read_text, write_text, print.
  rewrite Hf, Hr. cbn [fs stdout]. rewrite Hf, Hw, Hr. reflexivity.
Qed.

(** ** Other spacing around the equals sign *)




(** ** The scenarios of the specification *)

Example scenario_add :
  pipeline (cps "classList.tw-add('foo')") = cps "classList.add('foo')".
Proof. reflexivity. Qed.

Example scenario_prefix :
  pipeline (cps "className = " ++ quoted (cps "bar baz"))
  = cps "className = " ++ quoted (cps "tw-bar tw-baz").
Proof. reflexivity. Qed.

Example scenario_already_prefixed :
  pipeline (cps "className = " ++ quoted (cps "tw-bar baz"))
  = cps "className = " ++ quoted (cps "tw-bar tw-baz").
Proof. reflexivity. Qed.

Example scenario_twice :
  pipeline (cps "className = " ++ quoted (cps "bar"))
  = cps "className = " ++ quoted (cps "tw-bar") /\
  pipeline (pipeline (cps "className = " ++ quoted (cps "bar")))
  = cps "className = " ++ quoted (cps "tw-bar").
Proof. split; reflexivity. Qed.

(** ** The claims *)

(** C1: the pipeline is idempotent: for every text, running the three
    passes on their own output gives that output again. *)
Theorem pipeline_idempotent (t : text) : pipeline (pipeline t) = pipeline t.
Proof.
  destruct (pipeline_counts t) as (Ha & _ & Hr & _).
  unfold pipeline at 1.
  rewrite (fix_add_absent _ Ha), (fix_remove_absent _ Hr).
  unfold pipeline. apply fix_className_idem.
Qed.



(** C3: for a text that contains the mangled add call, the output of the
    pipeline contains it nowhere, and holds as many fixed add calls as
    the input held fixed and mangled ones together. *)
Theorem mangled_add_fixed (t : text) :
  1 <= count mangled_add t ->
  count mangled_add (pipeline t) = 0 /\
  count fixed_add (pipeline t) = count fixed_add t + count mangled_add t.
Proof.
  intros _. destruct (pipeline_counts t) as (H1 & H2 & _). now split.
Qed.

Lemma mangled_add_fixed_witness :
  let t := cps "a.classList.tw-add('x'); b.classList.add('y'); c.classList.tw-add('z')" in
  1 <= count mangled_add t /\
  count mangled_add (pipeline t) = 0 /\
  count fixed_add (pipeline t) = count fixed_add t + count mangled_add t.
Proof.
  split; [vm_compute; lia|]. apply mangled_add_fixed. vm_compute. lia.
Defined.

(** C4: the same for the mangled remove call. *)
Theorem mangled_remove_fixed (t : text) :
  1 <= count mangled_remove t ->
  count mangled_remove (pipeline t) = 0 /\
  count fixed_remove (pipeline t) = count fixed_remove t + count mangled_remove t.
Proof.
  intros _. destruct (pipeline_counts t) as (_ & _ & H1 & H2). now split.
Qed.

Lemma mangled_remove_fixed_witness :
  let t := cps "a.classList.tw-remove('x'); b.classList.remove('y')" in
  1 <= count mangled_remove t /\
  count mangled_remove (pipeline t) = 0 /\
  count fixed_remove (pipeline t) = count fixed_remove t + count mangled_remove t.
Proof.
  split; [vm_compute; lia|]. apply mangled_remove_fixed. vm_compute. lia.
Defined.



(** C6: when the target cannot be opened for reading (there is no such
    file, or it may not be read), the script stops with the error in the
    world it started in: no file is written, nothing is printed. *)
Theorem unreadable_no_write (w : world) :
  fs w target = None \/ (exists f, fs w target = Some f /\ can_read f = false) ->
  exists e, main w = Raised e w.
Proof.
  intros [H|(f & H & Hr)]; unfold main, bind, read_text; rewrite H.
  - now exists FileNotFoundError.
  - rewrite Hr. now exists PermissionError.
Qed.

Lemma unreadable_no_write_witness :
  let w := World (fun _ => None) [] in
  (fs w target = None \/ (exists f, fs w target = Some f /\ can_read f = false)) /\
  exists e, main w = Raised e w.
Proof.
  split; [left; reflexivity|]. apply unreadable_no_write. left. reflexivity.
Defined.



(** C8, as stated, fails for white space before the first token: the
    class string of this literal has one run of white space, the class
    string written for it has no space at all. *)
Lemma leading_space_dropped :
  fix_className (cps "className = " ++ quoted (cps " a"))
  = cps "className = " ++ quoted (cps "tw-a") /\
  space_runs false (cps " a") = 1 /\
  count [ch_space] (prefixed (cps " a")) = 0.
Proof. repeat split; reflexivity. Qed.

(** C8, amended: in a matched class string a run of white space between
    two tokens becomes exactly one space; a run before the first token
    or after the last one is dropped. *)
Theorem space_runs_between_tokens (g1 ws g2 r : text) :
  ws <> [] -> Forall (fun c => Py.isspace c = true) ws ->
  ~ In ch_quote g1 -> ~ In ch_quote g2 ->
  fix_className (className_open ++ (g1 ++ ws ++ g2) ++ ch_quote :: r) =
  className_open
  ++ (prefixed g1
      ++ match Py.split g1, Py.split g2 with
         | _ :: _, _ :: _ => [ch_space]
         | _, _ => []
         end
      ++ prefixed g2)
  ++ ch_quote :: fix_className r.
Proof.
  intros Hne Hws H1 H2.
  rewrite fix_className_match.
  - now rewrite (prefixed_app_spaces _ _ _ Hne Hws).
  - destruct g1, ws; easy.
  - intros Hi. apply in_app_or in Hi. destruct Hi as [Hi|Hi]; [easy|].
    apply in_app_or in Hi. destruct Hi as [Hi|Hi]; [|easy].
    rewrite Forall_forall in Hws. specialize (Hws _ Hi). discriminate.
Qed.

Lemma space_runs_between_tokens_witness :
  let g1 := cps "a" in
  let ws := [ch_space; 9%N; ch_space] in
  let g2 := cps "tw-b " in
  let r := cps ";" in
  (ws <> [] /\ Forall (fun c => Py.isspace c = true) ws /\
   ~ In ch_quote g1 /\ ~ In ch_quote g2) /\
  fix_className (className_open ++ (g1 ++ ws ++ g2) ++ ch_quote :: r) =
  className_open ++ (cps "tw-a" ++ [ch_space] ++ cps "tw-b")
  ++ ch_quote :: fix_className r.
Proof.
  split.
  - split; [discriminate|]. split; [repeat constructor|].
    split; no_such_char.
  - apply (space_runs_between_tokens (cps "a") [ch_space; 9%N; ch_space]
             (cps "tw-b ") (cps ";"));
      [discriminate|repeat constructor|no_such_char|no_such_char].
Defined.

(** C9, as stated, fails for an empty literal that lies in the class
    string of an earlier match: the pass rewrites it with that match. *)
Lemma empty_literal_swallowed :
  let t := cps "className = " ++ quoted (cps "a className = ") ++ [ch_quote] in
  count (cps "className = " ++ quoted []) t = 1 /\
  pipeline t
  = cps "className = " ++ quoted (cps "tw-a tw-className tw-=") ++ [ch_quote] /\
  count (cps "className = " ++ quoted []) (pipeline t) = 0.
Proof. repeat split; reflexivity. Qed.

(** C9, amended: the className pattern never matches where the quotes
    enclose nothing; whenever the scan of the className pass arrives at
    such an empty literal, that is, whenever the literal does not begin
    inside an earlier match, the pass copies it; and the whole pipeline
    leaves it as it is when no double quote comes before it. *)
Theorem empty_literal_kept (z : text) :
  let e := cps "className = " ++ quoted [] in
  Re.match_at re_className (e ++ z) = None /\
  (forall t, arrives re_className t (e ++ z) ->
     exists o, fix_className t = o ++ e ++ fix_className z) /\
  (forall pre, ~ In ch_quote pre ->
     pipeline (pre ++ e ++ z) = pipeline pre ++ e ++ pipeline z).
Proof.
  intros e. split; [apply (match_empty_literal z)|]. split.
  - intros t H. destruct (sub_arrives re_className prefix_classes _ _ H) as [o Ho].
    exists o. unfold fix_className at 1. rewrite Ho.
    fold (fix_className (e ++ z)). f_equal.
    apply (fix_className_empty_literal z).
  - intros pre Hq.
    apply (pipeline_island pre (tl className_open ++ [ch_quote]) z Hq).
    + no_such_char.
    + reflexivity.
    + reflexivity.
    + intros s. rewrite <- app_assoc. apply (match_empty_literal s).
Qed.

Lemma empty_literal_kept_witness :
  let e := cps "className = " ++ quoted [] in
  let z := cps "; el.className = " ++ quoted (cps "b") in
  let t := cps "className = " ++ quoted (cps "a") ++ e ++ z in
  let pre := cps "el.classList.tw-add('a'); el." in
  (arrives re_className t (e ++ z) /\ ~ In ch_quote pre) /\
  Re.match_at re_className (e ++ z) = None /\
  (exists o, fix_className t = o ++ e ++ fix_className z) /\
  pipeline (pre ++ e ++ z) = pipeline pre ++ e ++ pipeline z.
Proof.
  intros e z t pre.
  assert (Ha : arrives re_className t (e ++ z)).
  { apply (arrives_jump re_className t t (Re.Found [cps "a"] (e ++ z)));
      [apply arrives_start|reflexivity|vm_compute; lia]. }
  assert (Hq : ~ In ch_quote pre) by no_such_char.
  split; [now split|].
  destruct (empty_literal_kept z) as (H1 & H2 & H3).
  split; [exact H1|]. split; [exact (H2 t Ha)|exact (H3 pre Hq)].
Defined.




(** ** Further properties of the script *)

(** *** What the passes keep *)

Lemma skeleton_app (u v : text) : skeleton (u ++ v) = skeleton u ++ skeleton v.
Proof. apply filter_app. Qed.

Lemma skeleton_lit_pass (wt vt : text) :
  skeleton (ch_c :: wt) = skeleton (ch_c :: vt) ->
  forall t,
    skeleton (Re.sub (Re.lits (ch_c :: wt)) (fun _ => ch_c :: vt) t) = skeleton t.
Proof.
  intros Hk t. induction t as [t IH] using text_length_ind.
  destruct t as [|x s]; [now rewrite lit_pass_nil|].
  destruct (Py.startswith (ch_c :: wt) (x :: s)) eqn:E.
  - apply startswith_true in E. destruct E as [s' E]. rewrite E.
    cbn [app]. rewrite lit_pass_match.
    change (ch_c :: vt ++ Re.sub (Re.lits (ch_c :: wt)) (fun _ => ch_c :: vt) s')
      with ((ch_c :: vt) ++ Re.sub (Re.lits (ch_c :: wt)) (fun _ => ch_c :: vt) s').
    change (ch_c :: wt ++ s') with ((ch_c :: wt) ++ s').
    rewrite !skeleton_app, Hk, IH; [reflexivity|].
    rewrite E. simpl. rewrite length_app. lia.
  - rewrite (lit_pass_skip _ _ _ _ E).
    change (x :: Re.sub (Re.lits (ch_c :: wt)) (fun _ => ch_c :: vt) s)
      with ([x] ++ Re.sub (Re.lits (ch_c :: wt)) (fun _ => ch_c :: vt) s).
    change (x :: s) with ([x] ++ s).
    rewrite !skeleton_app, IH; [reflexivity|simpl; lia].
Qed.

Lemma kept_space (c : char) : Py.isspace c = true -> kept c = false.
Proof. intros H. unfold kept. now rewrite H. Qed.

Lemma skeleton_split_from (tok s : text) :
  List.concat (List.map skeleton (Py.split_from tok s)) = skeleton (tok ++ s).
Proof.
  revert tok. induction s as [|c s IH]; intros tok; simpl.
  - rewrite app_nil_r. destruct tok; simpl; [reflexivity|now rewrite app_nil_r].
  - destruct (Py.isspace c) eqn:E.
    + assert (Hc : skeleton (c :: s) = skeleton s).
      { unfold skeleton. cbn [filter]. now rewrite (kept_space _ E). }
      pose proof (IH []) as H0. cbn [app] in H0.
      rewrite skeleton_app, Hc, <- H0. destruct tok; reflexivity.
    + rewrite IH, <- app_assoc. reflexivity.
Qed.

Lemma skeleton_join (toks : list text) :
  skeleton (Py.join [ch_space] toks) = List.concat (List.map skeleton toks).
Proof.
  induction toks as [|a toks IH]; [reflexivity|].
  destruct toks as [|b toks].
  - simpl. now rewrite app_nil_r.
  - change (Py.join [ch_space] (a :: b :: toks))
      with (a ++ [ch_space] ++ Py.join [ch_space] (b :: toks)).
    rewrite !skeleton_app, IH. reflexivity.
Qed.

Lemma skeleton_prefix_class (c : text) : skeleton (prefix_class c) = skeleton c.
Proof.
  destruct (prefix_class_cases c) as [[_ ->]|[_ ->]]; [reflexivity|].
  now rewrite skeleton_app.
Qed.

Lemma skeleton_prefixed (g : text) : skeleton (prefixed g) = skeleton g.
Proof.
  unfold prefixed. rewrite skeleton_join, map_map.
  rewrite (map_ext _ skeleton) by apply skeleton_prefix_class.
  apply (skeleton_split_from [] g).
Qed.

Lemma skeleton_fix_className (t : text) : skeleton (fix_className t) = skeleton t.
Proof.
  induction t as [t IH] using text_length_ind.
  destruct t as [|x s]; [now rewrite fix_className_nil|].
  destruct (Re.match_at re_className (x :: s)) as [m|] eqn:E.
  - apply match_className in E. destruct E as (g & r & Hg & Hq & E & _).
    rewrite E, (fix_className_match _ _ Hg Hq).
    change (ch_quote :: fix_className r) with ([ch_quote] ++ fix_className r).
    change (ch_quote :: r) with ([ch_quote] ++ r).
    rewrite !skeleton_app, skeleton_prefixed, IH; [reflexivity|].
    rewrite E, !length_app. simpl. lia.
  - rewrite (fix_className_skip _ _ E).
    change (x :: fix_className s) with ([x] ++ fix_className s).
    change (x :: s) with ([x] ++ s).
    rewrite !skeleton_app, IH; [reflexivity|simpl; lia].
Qed.

(** X1: the pipeline only inserts and deletes white space and the
    characters t, w and -: all other characters of the text come out as
    many and in the same order as they went in. *)
Theorem pipeline_keeps_skeleton (t : text) :
  skeleton (pipeline t) = skeleton t.
Proof.
  unfold pipeline. rewrite skeleton_fix_className.
  unfold fix_remove, fix_add.
  rewrite (skeleton_lit_pass (tl mangled_remove) (tl fixed_remove) eq_refl).
  apply (skeleton_lit_pass (tl mangled_add) (tl fixed_add) eq_refl).
Qed.

(** *** The two classList passes *)

Lemma lit_pass_length (wt vt : text) :
  ~ In ch_c wt ->
  forall t,
    List.length (Re.sub (Re.lits (ch_c :: wt)) (fun _ => ch_c :: vt) t)
    + List.length wt * count (ch_c :: wt) t
    = List.length t + List.length vt * count (ch_c :: wt) t.
Proof.
  intros Hw t. induction t as [t IH] using text_length_ind.
  destruct t as [|x s]; [rewrite lit_pass_nil; simpl; lia|].
  destruct (Py.startswith (ch_c :: wt) (x :: s)) eqn:E.
  - apply startswith_true in E. destruct E as [s' E]. cbn [app] in E.
    assert (Hl : List.length s' < List.length (x :: s)).
    { rewrite E. simpl. rewrite length_app. lia. }
    specialize (IH s' Hl). rewrite E, lit_pass_match.
    rewrite (count_block _ _ _ Hw).
    change (ch_c :: wt ++ s') with ((ch_c :: wt) ++ s').
    rewrite startswith_app. cbn [app List.length]. rewrite !length_app. nia.
  - rewrite (lit_pass_skip _ _ _ _ E).
    assert (Hl : List.length s < List.length (x :: s)) by (simpl; lia).
    specialize (IH s Hl). cbn [count List.length]. rewrite E. nia.
Qed.

(** X2: the first two passes shorten the text by exactly three
    characters for every mangled call: the text after them, and three
    times the number of mangled add and remove calls of the text read,
    make up the length of the text read. *)
Theorem classList_passes_length (t : text) :
  List.length (fix_remove (fix_add t))
  + 3 * (count mangled_add t + count mangled_remove t)
  = List.length t.
Proof.
  pose proof (lit_pass_length (tl mangled_add) (tl fixed_add)
                mangled_add_free t) as Ha.
  pose proof (lit_pass_length (tl mangled_remove) (tl fixed_remove)
                mangled_remove_free (fix_add t)) as Hr.
  destruct (fix_add_counts t) as (_ & _ & Hc & _).
  change (ch_c :: tl mangled_add) with mangled_add in *.
  change (ch_c :: tl mangled_remove) with mangled_remove in *.
  change (Re.sub (Re.lits mangled_add) (fun _ => ch_c :: tl fixed_add) t)
    with (fix_add t) in *.
  change (Re.sub (Re.lits mangled_remove) (fun _ => ch_c :: tl fixed_remove) (fix_add t))
    with (fix_remove (fix_add t)) in *.
  change (List.length (tl mangled_add)) with 16 in Ha.
  change (List.length (tl fixed_add)) with 13 in Ha.
  change (List.length (tl mangled_remove)) with 19 in Hr.
  change (List.length (tl fixed_remove)) with 16 in Hr.
  rewrite Hc in Hr. lia.
Qed.

Section TwoLiteralPasses.

(** Two passes, [ch_c :: w1] to [ch_c :: v1] and [ch_c :: w2] to
    [ch_c :: v2], such that the word of neither starts at the word or
    the replacement of the other. *)
Variables (w1 v1 w2 v2 : text).
Hypothesis w1_free : ~ In ch_c w1.
Hypothesis v1_free : ~ In ch_c v1.
Hypothesis w2_free : ~ In ch_c w2.
Hypothesis v2_free : ~ In ch_c v2.
Hypothesis w2_at_w1 : forall z, Py.startswith (ch_c :: w2) (ch_c :: w1 ++ z) = false.
Hypothesis w2_at_v1 : forall z, Py.startswith (ch_c :: w2) (ch_c :: v1 ++ z) = false.
Hypothesis w1_at_w2 : forall z, Py.startswith (ch_c :: w1) (ch_c :: w2 ++ z) = false.
Hypothesis w1_at_v2 : forall z, Py.startswith (ch_c :: w1) (ch_c :: v2 ++ z) = false.

Local Abbreviation p1 := (Re.sub (Re.lits (ch_c :: w1)) (fun _ => ch_c :: v1)).
Local Abbreviation p2 := (Re.sub (Re.lits (ch_c :: w2)) (fun _ => ch_c :: v2)).

Lemma startswith_behind_p1 (x : char) (s : text) :
  Py.startswith (ch_c :: w2) (x :: p1 s) = Py.startswith (ch_c :: w2) (x :: s).
Proof.
  cbn [Py.startswith]. f_equal.
  apply (startswith_sub _ _ (lit_anchored w1) (lit_progress w1)
           (lit_repl_anchored w1 v1) _ _ w2_free).
Qed.

Lemma startswith_behind_p2 (x : char) (s : text) :
  Py.startswith (ch_c :: w1) (x :: p2 s) = Py.startswith (ch_c :: w1) (x :: s).
Proof.
  cbn [Py.startswith]. f_equal.
  apply (startswith_sub _ _ (lit_anchored w2) (lit_progress w2)
           (lit_repl_anchored w2 v2) _ _ w1_free).
Qed.

Lemma lit_passes_commute (t : text) : p1 (p2 t) = p2 (p1 t).
Proof.
  induction t as [t IH] using text_length_ind.
  destruct t as [|x s]; [now rewrite !lit_pass_nil|].
  destruct (Py.startswith (ch_c :: w1) (x :: s)) eqn:E1.
  { apply startswith_true in E1. destruct E1 as [s' E1]. cbn [app] in E1.
    assert (Hl : List.length s' < List.length (x :: s)).
    { rewrite E1. simpl. rewrite length_app. lia. }
    rewrite E1, lit_pass_match.
    rewrite (lit_pass_skip w2 v2 _ _ (w2_at_w1 s')).
    rewrite (lit_pass_copy w2 v2 _ _ w1_free), lit_pass_match.
    rewrite (lit_pass_skip w2 v2 _ _ (w2_at_v1 _)).
    rewrite (lit_pass_copy w2 v2 _ _ v1_free).
    now rewrite (IH _ Hl). }
  destruct (Py.startswith (ch_c :: w2) (x :: s)) eqn:E2.
  { apply startswith_true in E2. destruct E2 as [s' E2]. cbn [app] in E2.
    assert (Hl : List.length s' < List.length (x :: s)).
    { rewrite E2. simpl. rewrite length_app. lia. }
    rewrite E2, lit_pass_match.
    rewrite (lit_pass_skip w1 v1 _ _ (w1_at_w2 s')).
    rewrite (lit_pass_copy w1 v1 _ _ w2_free), lit_pass_match.
    rewrite (lit_pass_skip w1 v1 _ _ (w1_at_v2 _)).
    rewrite (lit_pass_copy w1 v1 _ _ v2_free).
    now rewrite (IH _ Hl). }
  rewrite (lit_pass_skip w1 v1 _ _ E1), (lit_pass_skip w2 v2 _ _ E2).
  rewrite lit_pass_skip by now rewrite startswith_behind_p2.
  rewrite (lit_pass_skip w2 v2) by now rewrite startswith_behind_p1.
  rewrite IH by (simpl; lia). reflexivity.
Qed.

End TwoLiteralPasses.

(** X3: the two classList passes do not get in each other's way: run in
    either order they give the same text. *)
Theorem classList_passes_commute (t : text) :
  fix_add (fix_remove t) = fix_remove (fix_add t).
Proof.
  apply (lit_passes_commute (tl mangled_add) (tl fixed_add)
           (tl mangled_remove) (tl fixed_remove)
           mangled_add_free fixed_add_free
           mangled_remove_free fixed_remove_free);
    intros z; reflexivity.
Qed.

(** *** The callback *)

(** X4: every class token the callback writes starts with the prefix,
    and the callback leaves a token as it is exactly when the token
    already started with the prefix. *)
Theorem prefix_classes_all_prefixed (gs : list text) :
  exists out,
    prefix_classes gs = className_open ++ out ++ [ch_quote] /\
    Forall (fun tok => Py.startswith tw tok = true) (Py.split out) /\
    forall c, prefix_class c = c <-> Py.startswith tw c = true.
Proof.
  exists (prefixed (group1 gs)). split; [reflexivity|]. split.
  - unfold prefixed. rewrite split_join by apply prefixed_tokens.
    apply Forall_map. apply Forall_forall. intros c _.
    destruct (prefix_class_cases c) as [[E ->]|[_ ->]];
      [exact E|apply startswith_app].
  - intros c. destruct (prefix_class_cases c) as [[E H]|[E H]]; rewrite H.
    + now split.
    + split; [|congruence]. intros Hc.
      apply (f_equal (@List.length char)) in Hc. rewrite length_app in Hc.
      simpl in Hc. lia.
Qed.

(** X5: in the class string the callback writes, white space occurs only
    as single spaces between tokens: every white space character is the
    space, and splitting the class string and joining the tokens with
    single spaces gives the class string back. *)
Theorem prefixed_canonical (g : text) :
  Forall (fun c => Py.isspace c = true -> c = ch_space) (prefixed g) /\
  Py.join [ch_space] (Py.split (prefixed g)) = prefixed g.
Proof.
  split.
  - apply Forall_forall. intros x Hx Hs. apply in_join in Hx.
    destruct Hx as [[E|[]]|(t & Ht & Hx)]; [now symmetry|].
    pose proof (prefixed_tokens g) as Hg. rewrite Forall_forall in Hg.
    destruct (Hg _ Ht) as [_ Hw]. rewrite Forall_forall in Hw.
    specialize (Hw _ Hx). congruence.
  - unfold prefixed. now rewrite split_join by apply prefixed_tokens.
Qed.

(** *** A className literal in the whole pipeline *)

Section LiteralSeparator.

Variables (wt vt : text).
Hypothesis wt_free : ~ In ch_c wt.

Local Abbreviation pass := (Re.sub (Re.lits (ch_c :: wt)) (fun _ => ch_c :: vt)).

(** No occurrence of the word reaches across a character the word does
    not have. *)
Lemma lit_pass_sep (x : char) (u s : text) :
  ~ In x (ch_c :: wt) -> pass (u ++ x :: s) = pass u ++ x :: pass s.
Proof.
  intros Hx. induction u as [u IH] using text_length_ind.
  destruct u as [|y u].
  - rewrite lit_pass_nil. cbn [app]. apply lit_pass_skip.
    cbn [Py.startswith]. destruct (char_eqb ch_c x) eqn:E; [|reflexivity].
    apply char_eqb_eq in E. exfalso. apply Hx. now left.
  - assert (E : Py.startswith (ch_c :: wt) ((y :: u) ++ x :: s)
                = Py.startswith (ch_c :: wt) (y :: u))
      by apply (startswith_sep _ _ _ _ Hx).
    destruct (Py.startswith (ch_c :: wt) (y :: u)) eqn:E1.
    + apply startswith_true in E1. destruct E1 as [u' E1]. rewrite E1.
      cbn [app]. rewrite <- app_assoc.
      change (wt ++ u' ++ x :: s) with (wt ++ (u' ++ x :: s)).
      rewrite !lit_pass_match, IH.
      * cbn [app]. now rewrite <- app_assoc.
      * rewrite E1. simpl. rewrite length_app. lia.
    + cbn [app] in *.
      rewrite (lit_pass_skip _ _ _ _ E), (lit_pass_skip _ _ _ _ E1).
      rewrite IH by (simpl; lia). reflexivity.
Qed.

Lemma lit_pass_not_nil (t : text) : t <> [] -> pass t <> [].
Proof.
  intros Ht. destruct t as [|x s]; [easy|].
  destruct (Py.startswith (ch_c :: wt) (x :: s)) eqn:E.
  - apply startswith_true in E. destruct E as [s' E]. rewrite E.
    cbn [app]. now rewrite lit_pass_match.
  - now rewrite (lit_pass_skip _ _ _ _ E).
Qed.

(** The pass works on the text before the opening of a className
    literal, on the class string and on the text behind the closing
    quote separately. *)
Lemma lit_pass_opening (pre s : text) :
  ~ In ch_quote (ch_c :: wt) ->
  pass (cps "className = ") = cps "className = " ->
  pass (pre ++ className_open ++ s) = pass pre ++ className_open ++ pass s.
Proof.
  intros Hq Hp.
  change className_open with (cps "className = " ++ [ch_quote]).
  rewrite <- !app_assoc. cbn [app].
  rewrite (app_assoc pre), (lit_pass_sep _ _ _ Hq).
  change (cps "className = ") with (ch_c :: cps "lassName = ") at 1.
  rewrite (lit_pass_split wt vt wt_free).
  change (ch_c :: cps "lassName = ") with (cps "className = ").
  rewrite Hp. now rewrite <- !app_assoc.
Qed.

End LiteralSeparator.

Lemma classList_passes_opening (pre s : text) :
  fix_remove (fix_add (pre ++ className_open ++ s))
  = fix_remove (fix_add pre) ++ className_open ++ fix_remove (fix_add s).
Proof.
  unfold fix_remove, fix_add.
  change mangled_add with (ch_c :: tl mangled_add).
  change fixed_add with (ch_c :: tl fixed_add).
  change mangled_remove with (ch_c :: tl mangled_remove).
  change fixed_remove with (ch_c :: tl fixed_remove).
  rewrite (lit_pass_opening _ (tl fixed_add) mangled_add_free);
    [|no_such_char|reflexivity].
  rewrite (lit_pass_opening _ (tl fixed_remove) mangled_remove_free);
    [|no_such_char|reflexivity].
  reflexivity.
Qed.

Lemma classList_passes_quote (g r : text) :
  fix_remove (fix_add (g ++ ch_quote :: r))
  = fix_remove (fix_add g) ++ ch_quote :: fix_remove (fix_add r).
Proof.
  unfold fix_remove, fix_add.
  change mangled_add with (ch_c :: tl mangled_add).
  change fixed_add with (ch_c :: tl fixed_add).
  change mangled_remove with (ch_c :: tl mangled_remove).
  change fixed_remove with (ch_c :: tl fixed_remove).
  rewrite (lit_pass_sep (tl mangled_add) (tl fixed_add)) by no_such_char.
  rewrite (lit_pass_sep (tl mangled_remove) (tl fixed_remove)) by no_such_char.
  reflexivity.
Qed.

(** X6: a className literal that no double quote precedes is rewritten
    by the whole pipeline to the literal whose class string is made of
    the prefixed tokens of its class string as the two classList passes
    leave it; the text before it and the text behind it are processed on
    their own. *)
Theorem pipeline_rewrites_literal (pre g r : text) :
  ~ In ch_quote pre -> g <> [] -> ~ In ch_quote g ->
  pipeline (pre ++ className_open ++ g ++ ch_quote :: r)
  = pipeline pre ++ className_open ++ prefixed (fix_remove (fix_add g))
    ++ ch_quote :: pipeline r.
Proof.
  intros Hp Hg Hq. unfold pipeline.
  rewrite classList_passes_opening, classList_passes_quote.
  assert (Hp2 : ~ In ch_quote (fix_remove (fix_add pre)))
    by now apply fix_remove_no_quote, fix_add_no_quote.
  change className_open with (ch_c :: tl className_open) at 1.
  cbn [app]. rewrite (fix_className_before_c _ _ Hp2).
  change (ch_c :: tl className_open ++ ?x) with (className_open ++ x).
  rewrite (fix_className_no_quote _ Hp2).
  rewrite fix_className_match; [reflexivity| |].
  - apply lit_pass_not_nil. now apply lit_pass_not_nil.
  - now apply fix_remove_no_quote, fix_add_no_quote.
Qed.

Lemma pipeline_rewrites_literal_witness :
  let pre := cps "el.classList.tw-add('a'); el." in
  let g := cps "btn  classList.tw-remove( tw-x" in
  let r := cps ";" in
  (~ In ch_quote pre /\ g <> [] /\ ~ In ch_quote g) /\
  pipeline (pre ++ className_open ++ g ++ ch_quote :: r)
  = cps "el.classList.add('a'); el." ++ className_open
    ++ cps "tw-btn tw-classList.remove( tw-x" ++ ch_quote :: cps ";".
Proof.
  split.
  - split; [no_such_char|]. split; [discriminate|no_such_char].
  - apply (pipeline_rewrites_literal
             (cps "el.classList.tw-add('a'); el.")
             (cps "btn  classList.tw-remove( tw-x") (cps ";"));
      [no_such_char|discriminate|no_such_char].
Defined.

(** X7: a matched class string that holds nothing but white space is
    replaced by the empty class string. *)
Theorem blank_class_string_emptied (g r : text) :
  g <> [] -> Forall (fun c => Py.isspace c = true) g ->
  fix_className (className_open ++ g ++ ch_quote :: r)
  = className_open ++ ch_quote :: fix_className r.
Proof.
  intros Hg Hs. rewrite fix_className_match; [|exact Hg|].
  - unfold prefixed. rewrite <- (app_nil_r g), (split_spaces _ _ Hs).
    reflexivity.
  - intros Hi. rewrite Forall_forall in Hs. specialize (Hs _ Hi). discriminate.
Qed.

Lemma blank_class_string_emptied_witness :
  let g := [ch_space; 10%N; 9%N] in
  let r := cps ";" in
  (g <> [] /\ Forall (fun c => Py.isspace c = true) g) /\
  fix_className (className_open ++ g ++ ch_quote :: r)
  = className_open ++ ch_quote :: fix_className r.
Proof.
  split; [split; [discriminate|repeat constructor]|].
  apply blank_class_string_emptied; [discriminate|repeat constructor].
Defined.

(** X8: a className literal without its closing quote is not prefixed:
    when the text has no double quote but the opening one, only the two
    classList passes apply. *)
Theorem unterminated_literal_kept (pre g : text) :
  ~ In ch_quote pre -> ~ In ch_quote g ->
  pipeline (pre ++ className_open ++ g)
  = fix_remove (fix_add pre) ++ className_open ++ fix_remove (fix_add g).
Proof.
  intros Hp Hg. unfold pipeline. rewrite classList_passes_opening.
  assert (Hp2 : ~ In ch_quote (fix_remove (fix_add pre)))
    by now apply fix_remove_no_quote, fix_add_no_quote.
  assert (Hg2 : ~ In ch_quote (fix_remove (fix_add g)))
    by now apply fix_remove_no_quote, fix_add_no_quote.
  change className_open with (ch_c :: tl className_open) at 1.
  cbn [app]. rewrite (fix_className_before_c _ _ Hp2). f_equal.
  rewrite fix_className_skip.
  - rewrite (fix_className_copy _ _ className_open_free).
    now rewrite (fix_className_no_quote _ Hg2).
  - destruct (Re.match_at re_className
                (ch_c :: tl className_open ++ fix_remove (fix_add g)))
      as [m|] eqn:E; [|reflexivity].
    apply match_className in E. destruct E as (g' & r' & _ & _ & E & _).
    change (ch_c :: tl className_open ++ fix_remove (fix_add g))
      with (className_open ++ fix_remove (fix_add g)) in E.
    apply app_inv_head in E. exfalso. apply Hg2. rewrite E.
    apply in_or_app. right. now left.
Qed.

Lemma unterminated_literal_kept_witness :
  let pre := cps "el." in
  let g := cps "btn classList.tw-add('x')" in
  (~ In ch_quote pre /\ ~ In ch_quote g) /\
  pipeline (pre ++ className_open ++ g)
  = cps "el." ++ className_open ++ cps "btn classList.add('x')".
Proof.
  split; [split; no_such_char|].
  apply (unterminated_literal_kept (cps "el.") (cps "btn classList.tw-add('x')"));
    no_such_char.
Defined.

(** *** Writing and printing *)

(** X9: when the target can be read but not written, the script stops
    with the permission error in the world it started in: the file keeps
    its content and the message is not printed. *)
Theorem unwritable_no_message (w : world) (f : file) :
  fs w target = Some f -> can_read f = true -> can_write f = false ->
  main w = Raised PermissionError w.
Proof.
  intros Hf Hr Hw. unfold main, bind, read_text, write_text.
  rewrite Hf, Hr. cbn [fs]. now rewrite Hf, Hw.
Qed.

Lemma unwritable_no_message_witness :
  let f := File true false (cps "x.classList.tw-add('a')") in
  let w := World (store target f (fun _ => None)) [] in
  (fs w target = Some f /\ can_read f = true /\ can_write f = false) /\
  main w = Raised PermissionError w.
Proof.
  split; [repeat split; reflexivity|].
  apply (unwritable_no_message _ (File true false (cps "x.classList.tw-add('a')")));
    reflexivity.
Defined.


Lemma pipeline_fixed (t : text) : pipeline (pipeline t) = pipeline t.
Proof.
  destruct (pipeline_counts t) as (Ha & _ & Hr & _).
  unfold pipeline at 1.
  rewrite (fix_add_absent _ Ha), (fix_remove_absent _ Hr).
  apply fix_className_idem.
Qed.

(** X11: after a run of the script that succeeded, a second run succeeds
    too, leaves every file as the first run left it and prints the
    message a second time. *)
Theorem main_twice (w w1 : world) :
  main w = Done tt w1 ->
  exists w2, main w1 = Done tt w2 /\
             (forall p, fs w2 p = fs w1 p) /\
             stdout w2 = stdout w1 ++ [message].
Proof.
  intros H.
  destruct (fs w target) as [f|] eqn:Hf;
    [|unfold main, bind, read_text in H; rewrite Hf in H; discriminate].
  destruct (can_read f) eqn:Hr;
    [|unfold main, bind, read_text in H; rewrite Hf, Hr in H; discriminate].
  destruct (can_write f) eqn:Hw.
  2:{ unfold main, bind, read_text, write_text in H. rewrite Hf, Hr in H.
      cbn [fs] in H. rewrite Hf, Hw in H. discriminate. }
  rewrite (main_run _ _ Hf Hr Hw) in H. injection H as <-.
  set (f1 := File true true (pipeline (data f))).
  assert (Hf1 : fs (World (store target f1 (fs w)) (stdout w ++ [message])) target
                = Some f1).
  { cbn [fs]. unfold store. now rewrite String.eqb_refl. }
  eexists. split; [apply (main_run _ f1 Hf1); reflexivity|].
  split; [|reflexivity].
  intros p. cbn [fs data f1]. unfold store.
  destruct (String.eqb p target); [|reflexivity].
  now rewrite pipeline_fixed.
Qed.

Lemma main_twice_witness :
  let f := File true true (cps "el.className = " ++ quoted (cps "a tw-b")) in
  let w := World (store target f (fun _ => None)) [] in
  let w1 := World (store target (File true true (pipeline (data f))) (fs w))
                  (stdout w ++ [message]) in
  main w = Done tt w1 /\
  exists w2, main w1 = Done tt w2 /\
             (forall p, fs w2 p = fs w1 p) /\
             stdout w2 = stdout w1 ++ [message].
Proof.
  intros f w w1.
  assert (H : main w = Done tt w1) by reflexivity.
  split; [exact H|]. exact (main_twice w w1 H).
Defined.
